(** * Level simulation core of the breakout game (engine.py)

    A shallow embedding of [Level], [LevelMaker] and the frame loop of
    [Game.run], followed by the properties of the specification that were
    checked against it.

    Modelling conventions.
    - A [pygame.Rect] holds four machine integers; they are taken in [Z].
      Its derived edges ([left], [right], [top], [bottom], [centerx]) and
      their setters are written out as pygame computes them.
    - A [pygame.Vector2] holds two floats; they are taken as exact rationals
      in [Q].  Negation, absolute value and zero are exact in both, and every
      general statement below quantifies over arbitrary velocities.
    - Storing a float into a [Rect] coordinate converts it to a C [int].
      The conversion is taken as truncation toward zero ([to_int]), as
      pygame does up to version 2.2; later versions round to the nearest
      integer.  The two agree on integral values.  The concrete
      situations below use integral velocities, and the general theorems
      use no more of the conversion than that it is exact on integers
      ([both_keys_cancel] also that it is an odd function).
    - Integers are unbounded here.  The statements about construction
      that depend on it are restricted to sizes that fit a C [int]; what
      pygame does with sizes it cannot hold or allocate is not modelled.
    - Python object identity of a [Block] is an explicit field [ident];
      [list.remove] compares blocks by identity.
    - Images and colours are rendering data and are left out. *)

From Stdlib Require Import ZArith QArith Qabs List Bool Lia Arith.
Import ListNotations.

Local Open Scope Z_scope.

(* ------------------------------------------------------------------ *)
(** ** Numbers *)

(** Conversion of a float to a C [int] as pygame does it: truncation
    toward zero. *)
Definition to_int (q : Q) : Z := Z.quot (Qnum q) (Z.pos (Qden q)).

(** Python's [round] with one argument: nearest integer, ties to even. *)
Definition py_round (q : Q) : Z :=
  let n := Qnum q in
  let d := Z.pos (Qden q) in
  let f := n / d in
  let r := n mod d in
  match 2 * r ?= d with
  | Lt => f
  | Gt => f + 1
  | Eq => if Z.even f then f else f + 1
  end.

(* ------------------------------------------------------------------ *)
(** ** Geometry: pygame.Rect and pygame.Vector2 *)

Record Rect : Type := mkRect { rx : Z; ry : Z; rw : Z; rh : Z }.

Definition left (r : Rect) : Z := rx r.
Definition right (r : Rect) : Z := rx r + rw r.
Definition top (r : Rect) : Z := ry r.
Definition bottom (r : Rect) : Z := ry r + rh r.
Definition centerx (r : Rect) : Z := rx r + rw r / 2.

Definition set_x (r : Rect) (v : Z) : Rect := mkRect v (ry r) (rw r) (rh r).
Definition set_y (r : Rect) (v : Z) : Rect := mkRect (rx r) v (rw r) (rh r).

Definition set_left (r : Rect) (v : Z) : Rect := set_x r v.
Definition set_right (r : Rect) (v : Z) : Rect := set_x r (v - rw r).
Definition set_top (r : Rect) (v : Z) : Rect := set_y r v.
Definition set_bottom (r : Rect) (v : Z) : Rect := set_y r (v - rh r).
Definition set_centerx (r : Rect) (v : Z) : Rect := set_x r (v - rw r / 2).

(** [Rect.move_ip(dx, dy)]: both arguments are converted to [int] first. *)
Definition move_ip (r : Rect) (dx dy : Q) : Rect :=
  mkRect (rx r + to_int dx) (ry r + to_int dy) (rw r) (rh r).

(** [Rect.colliderect] (behind [pygame.sprite.collide_rect]): strict
    overlap; a rectangle of zero width or height collides with nothing. *)
Definition colliderect (a b : Rect) : bool :=
  if (rw a =? 0) || (rh a =? 0) || (rw b =? 0) || (rh b =? 0) then false
  else
    (Z.min (rx a) (rx a + rw a) <? Z.max (rx b) (rx b + rw b)) &&
    (Z.min (ry a) (ry a + rh a) <? Z.max (ry b) (ry b + rh b)) &&
    (Z.max (rx a) (rx a + rw a) >? Z.min (rx b) (rx b + rw b)) &&
    (Z.max (ry a) (ry a + rh a) >? Z.min (ry b) (ry b + rh b)).

Record Vector2 : Type := mkVec { vx : Q; vy : Q }.

Definition set_vx (v : Vector2) (q : Q) : Vector2 := mkVec q (vy v).
Definition set_vy (v : Vector2) (q : Q) : Vector2 := mkVec (vx v) q.

(** [v *= k] on a [Vector2]. *)
Definition vec_scale (v : Vector2) (k : Q) : Vector2 :=
  mkVec (vx v * k)%Q (vy v * k)%Q.

(* ------------------------------------------------------------------ *)
(** ** Entities *)

(** [Block]: an entity with a destroyed flag.  [ident] stands for the
    identity of the Python object. *)
Record Block : Type := mkBlock {
  ident : nat;
  block_rect : Rect;
  is_destroyed : bool
}.

(** [Block.set_is_destroyed]. *)
Definition set_is_destroyed (b : Block) : Block :=
  mkBlock (ident b) (block_rect b) true.

(** [MovableEntity]: the ball and the platform. *)
Record MovableEntity : Type := mkMovable {
  rect : Rect;
  speed : Vector2
}.

Definition with_rect (m : MovableEntity) (r : Rect) : MovableEntity :=
  mkMovable r (speed m).
Definition with_speed (m : MovableEntity) (v : Vector2) : MovableEntity :=
  mkMovable (rect m) v.

(** [Entity.is_collided_with]. *)
Definition is_collided_with (m : MovableEntity) (other : Rect) : bool :=
  colliderect (rect m) other.

(** [Platform.move]: the vertical speed is ignored. *)
Definition platform_move (p : MovableEntity) : MovableEntity :=
  with_rect p (move_ip (rect p) (vx (speed p)) 0).

(** [m.rect.x += m.speed.x]: the sum is a float, stored truncated. *)
Definition advance_x (m : MovableEntity) : MovableEntity :=
  with_rect m (set_x (rect m) (to_int (inject_Z (rx (rect m)) + vx (speed m)))).

(** [m.rect.y += m.speed.y]. *)
Definition advance_y (m : MovableEntity) : MovableEntity :=
  with_rect m (set_y (rect m) (to_int (inject_Z (ry (rect m)) + vy (speed m)))).

(* ------------------------------------------------------------------ *)
(** ** Level *)

Record GameState : Type := mkGameState {
  ball_released_speed : Vector2;
  score : Z;
  lifes : Z;
  is_game_over : bool;
  is_ball_released : bool;
  is_player_won : bool
}.

Record Level : Type := mkLevel {
  blocks : list Block;
  platform : MovableEntity;
  ball : MovableEntity;
  edges : Rect;
  state : GameState
}.

Definition with_blocks (l : Level) (bs : list Block) : Level :=
  mkLevel bs (platform l) (ball l) (edges l) (state l).
Definition with_platform (l : Level) (p : MovableEntity) : Level :=
  mkLevel (blocks l) p (ball l) (edges l) (state l).
Definition with_ball (l : Level) (b : MovableEntity) : Level :=
  mkLevel (blocks l) (platform l) b (edges l) (state l).
Definition with_state (l : Level) (s : GameState) : Level :=
  mkLevel (blocks l) (platform l) (ball l) (edges l) s.

Definition set_score (s : GameState) (v : Z) : GameState :=
  mkGameState (ball_released_speed s) v (lifes s) (is_game_over s)
              (is_ball_released s) (is_player_won s).
Definition set_lifes (s : GameState) (v : Z) : GameState :=
  mkGameState (ball_released_speed s) (score s) v (is_game_over s)
              (is_ball_released s) (is_player_won s).
Definition set_game_over (s : GameState) (v : bool) : GameState :=
  mkGameState (ball_released_speed s) (score s) (lifes s) v
              (is_ball_released s) (is_player_won s).
Definition set_ball_released (s : GameState) (v : bool) : GameState :=
  mkGameState (ball_released_speed s) (score s) (lifes s) (is_game_over s)
              v (is_player_won s).
Definition set_player_won (s : GameState) (v : bool) : GameState :=
  mkGameState (ball_released_speed s) (score s) (lifes s) (is_game_over s)
              (is_ball_released s) v.

(** The ball put on the platform: bottom on the platform's top, centred. *)
Definition tie_to_platform (b p : MovableEntity) : MovableEntity :=
  with_rect b
    (set_centerx (set_bottom (rect b) (top (rect p))) (centerx (rect p))).

(** [Level.reset_ball]. *)
Definition reset_ball (l : Level) : Level :=
  with_state
    (with_ball l
       (with_speed (tie_to_platform (ball l) (platform l)) (mkVec 0 0)))
    (set_ball_released (state l) false).

(** [Level.release_ball]. *)
Definition release_ball (l : Level) : Level :=
  if is_ball_released (state l) then l
  else
    with_ball
      (with_state l (set_ball_released (state l) true))
      (with_speed (ball l) (ball_released_speed (state l))).

(** [Level.__init__]. *)
Definition Level_init (lifes0 : Z) (bs : list Block)
    (p b : MovableEntity) (width height top_start : Z) : Level :=
  reset_ball
    (mkLevel bs p b (mkRect 0 top_start width height)
       (mkGameState (speed b) 0 lifes0 false false false)).

(** [Level.adjust_on_x_collision]. *)
Definition adjust_on_x_collision (m : MovableEntity) (e : Rect)
    : MovableEntity :=
  let r :=
    if (right (rect m) >? left e) && (right (rect m) <? right e)
    then set_right (rect m) (left e)
    else set_left (rect m) (right e) in
  mkMovable r (set_vx (speed m) (- vx (speed m))%Q).

(** [Level.adjust_on_y_collision]. *)
Definition adjust_on_y_collision (m : MovableEntity) : MovableEntity :=
  mkMovable
    (set_y (rect m) (to_int (inject_Z (ry (rect m)) - vy (speed m))))
    (set_vy (speed m) (- vy (speed m))%Q).

(** The keys read by [process_key_presses]. *)
Record Keys : Type := mkKeys {
  key_ctrl : bool;  (* K_LCTRL or K_RCTRL *)
  key_a : bool;
  key_d : bool
}.

(** The local function [update] of [process_key_presses]. *)
Definition key_update (l : Level) : Level :=
  let l1 := with_platform l (platform_move (platform l)) in
  if is_ball_released (state l1) then l1
  else with_ball l1 (tie_to_platform (ball l1) (platform l1)).

Definition set_platform_speed_x (l : Level) (q : Q) : Level :=
  with_platform l
    (with_speed (platform l) (set_vx (speed (platform l)) q)).

(** [Level.process_key_presses]. *)
Definition process_key_presses (k : Keys) (l : Level) : Level :=
  let l1 := if key_ctrl k then release_ball l else l in
  let l2 :=
    if key_a k
    then key_update
           (set_platform_speed_x l1 (- Qabs (vx (speed (platform l1))))%Q)
    else l1 in
  if key_d k
  then key_update
         (set_platform_speed_x l2 (Qabs (vx (speed (platform l2)))))
  else l2.

(** *** process_collisions *)

(** The loop [for block in self.blocks] of the X pass.  It has no [break]:
    every block is tested in list order against the ball as the earlier
    resolutions left it. *)
Fixpoint x_blocks (bs : list Block) (b : MovableEntity)
    : list Block * MovableEntity :=
  match bs with
  | [] => ([], b)
  | blk :: rest =>
      if is_collided_with b (block_rect blk)
      then
        let (rest', b') :=
          x_blocks rest (adjust_on_x_collision b (block_rect blk)) in
        (set_is_destroyed blk :: rest', b')
      else
        let (rest', b') := x_blocks rest b in
        (blk :: rest', b')
  end.

(** The same loop of the Y pass. *)
Fixpoint y_blocks (bs : list Block) (b : MovableEntity)
    : list Block * MovableEntity :=
  match bs with
  | [] => ([], b)
  | blk :: rest =>
      if is_collided_with b (block_rect blk)
      then
        let (rest', b') := y_blocks rest (adjust_on_y_collision b) in
        (set_is_destroyed blk :: rest', b')
      else
        let (rest', b') := y_blocks rest b in
        (blk :: rest', b')
  end.

(** Which branch of an if/elif chain of a pass is taken. *)
Inductive XOutcome : Type := XPlatform | XRightEdge | XLeftEdge | XBlocks.
Inductive YOutcome : Type := YPlatform | YBottomEdge | YTopEdge | YBlocks.

Definition x_outcome (l : Level) : XOutcome :=
  let b := advance_x (ball l) in
  if is_collided_with b (rect (platform l)) then XPlatform
  else if right (rect b) >? right (edges l) then XRightEdge
  else if left (rect b) <? left (edges l) then XLeftEdge
  else XBlocks.

Definition y_outcome (l : Level) : YOutcome :=
  let b := advance_y (ball l) in
  if is_collided_with b (rect (platform l)) then YPlatform
  else if bottom (rect b) >? bottom (edges l) then YBottomEdge
  else if top (rect b) <? top (edges l) then YTopEdge
  else YBlocks.

Definition negate_vx (m : MovableEntity) : MovableEntity :=
  with_speed m (set_vx (speed m) (- vx (speed m))%Q).
Definition negate_vy (m : MovableEntity) : MovableEntity :=
  with_speed m (set_vy (speed m) (- vy (speed m))%Q).

(** "checking collision on the X axis". *)
Definition x_pass (l : Level) : Level :=
  let b := advance_x (ball l) in
  if is_collided_with b (rect (platform l))
  then with_ball l (adjust_on_x_collision b (rect (platform l)))
  else if right (rect b) >? right (edges l)
  then with_ball l
         (negate_vx (with_rect b (set_right (rect b) (right (edges l)))))
  else if left (rect b) <? left (edges l)
  then with_ball l
         (negate_vx (with_rect b (set_left (rect b) (left (edges l)))))
  else
    let (bs', b') := x_blocks (blocks l) b in
    with_ball (with_blocks l bs') b'.

(** "checking collision on the Y axis". *)
Definition y_pass (l : Level) : Level :=
  let b := advance_y (ball l) in
  if is_collided_with b (rect (platform l))
  then with_ball l (adjust_on_y_collision b)
  else if bottom (rect b) >? bottom (edges l)
  then
    let l1 := reset_ball (with_ball l b) in
    with_state l1 (set_lifes (state l1) (lifes (state l1) - 1))
  else if top (rect b) <? top (edges l)
  then with_ball l
         (negate_vy (with_rect b (set_top (rect b) (top (edges l)))))
  else
    let (bs', b') := y_blocks (blocks l) b in
    with_ball (with_blocks l bs') b'.

Definition is_squeezing_on_y (l : Level) : bool :=
  (bottom (rect (ball l)) <? top (rect (platform l))) ||
  (top (rect (ball l)) <? bottom (rect (platform l))).

Definition is_squeezing_on_x (l : Level) : bool :=
  (right (rect (ball l)) >? right (edges l)) ||
  (left (rect (ball l)) <? left (edges l)).

(** "if platform squeezes ball to the left or right level edge". *)
Definition anti_squeeze (l : Level) : Level :=
  if is_squeezing_on_y l && is_squeezing_on_x l
  then with_ball l
         (with_rect (ball l)
            (set_top (rect (ball l)) (bottom (rect (platform l)))))
  else l.

(** "if platform out of level edges". *)
Definition platform_clamp (l : Level) : Level :=
  let p := platform l in
  if right (rect p) >? right (edges l)
  then with_platform l
         (negate_vx (with_rect p (set_right (rect p) (right (edges l)))))
  else if left (rect p) <? left (edges l)
  then with_platform l
         (negate_vx (with_rect p (set_left (rect p) (left (edges l)))))
  else l.

(** [Level.process_collisions]. *)
Definition process_collisions (l : Level) : Level :=
  platform_clamp (anti_squeeze (y_pass (x_pass l))).

(** *** update *)

(** [list.remove(b)]: drops the first element equal to [b]; blocks are
    compared by identity. *)
Fixpoint list_remove (b : Block) (bs : list Block) : list Block :=
  match bs with
  | [] => []
  | c :: rest =>
      if Nat.eqb (ident c) (ident b) then rest else c :: list_remove b rest
  end.

(** One removal in the cleanup loop: the block leaves the list, the score
    grows by 100 and the ball speed by the factor 1.02. *)
Definition remove_block (b : Block) (l : Level) : Level :=
  with_ball
    (with_state
       (with_blocks l (list_remove b (blocks l)))
       (set_score (state l) (score (state l) + 100)))
    (with_speed (ball l) (vec_scale (speed (ball l)) (102 # 100))).

(** "remove destroyed block and increase score correspondingly": the loop
    [for block in self.blocks] runs a list iterator, that is an index [i]
    into the list as it is at that moment, while the body removes from the
    same list.  [fuel] bounds the number of iterations. *)
Fixpoint cleanup_loop (fuel : nat) (i : nat) (l : Level) : Level :=
  match fuel with
  | O => l
  | S fuel' =>
      match nth_error (blocks l) i with
      | None => l
      | Some b =>
          if is_destroyed b
          then cleanup_loop fuel' (S i) (remove_block b l)
          else cleanup_loop fuel' (S i) l
      end
  end.

(** The index grows by one per iteration and the list never grows, so
    its initial length is enough fuel (see [cleanup_loop_fuel]). *)
Definition cleanup (l : Level) : Level :=
  cleanup_loop (length (blocks l)) 0 l.

(** The termination check that ends [update]. *)
Definition check_termination (l : Level) : Level :=
  if lifes (state l) <? 1
  then with_state l (set_game_over (state l) true)
  else
    match blocks l with
    | [] => with_state l (set_player_won (state l) true)
    | _ :: _ => l
    end.

(** [Level.update]: one tick. *)
Definition update (k : Keys) (l : Level) : Level :=
  check_termination (cleanup (process_collisions (process_key_presses k l))).

(** A run of ticks, one key state per tick. *)
Fixpoint updates (ks : list Keys) (l : Level) : Level :=
  match ks with
  | [] => l
  | k :: rest => updates rest (update k l)
  end.

(* ------------------------------------------------------------------ *)
(** ** LevelMaker and Game *)

(** [Edges]: width and height of the level. *)
Record Edges : Type := mkEdges { width : Z; height : Z }.

(** Sizes of the three surfaces in [Game.images]. *)
Record Images : Type := mkImages {
  platform_size : Z * Z;
  ball_size : Z * Z;
  block_size : Z * Z
}.

Record LevelMaker : Type := mkLevelMaker {
  lm_edges : Edges;
  images : Images;
  horizontal_margin : Z;
  vertical_margin : Z;
  num_of_rows : Z
}.

(** The exceptions construction can raise. *)
Inductive PyError : Type :=
| ZeroDivisionError   (* true division by zero *)
| PygameError.        (* pygame.Surface of negative width or height *)

Inductive Result (A : Type) : Type :=
| Ok (a : A)
| Raise (e : PyError).
Arguments Ok {A} a.
Arguments Raise {A} e.

(** [pygame.Surface(size)]: a negative dimension raises [pygame.error].
    That is the one error modelled: pygame also raises [pygame.error] for
    a surface too large to allocate, which depends on the machine.  So
    [Raise] here means the call raises, while [Ok] means it succeeds
    provided the surface can be allocated. *)
Definition Surface (size : Z * Z) : Result (Z * Z) :=
  if (fst size <? 0) || (snd size <? 0) then Raise PygameError else Ok size.

(** True division of two ints. *)
Definition true_div (a b : Z) : Result Q :=
  if b =? 0 then Raise ZeroDivisionError
  else Ok (inject_Z a / inject_Z b)%Q.

(** [Game.__init__]: derives the block layout from the board size.  The
    result is the level maker the game keeps. *)
Definition Game_init (e : Edges) (num_of_columns num_rows : Z)
    : Result LevelMaker :=
  let hm := py_round (inject_Z (width e) * (3 # 100))%Q in
  match true_div (width e - hm * 2 - hm * num_of_columns) num_of_columns with
  | Raise err => Raise err
  | Ok q =>
      let block_width := py_round q in
      match Surface (block_width, 20) with
      | Raise err => Raise err
      | Ok bsize =>
          Ok (mkLevelMaker e (mkImages (65, 20) (15, 15) bsize)
                hm (py_round (inject_Z (height e) * (6 # 100))%Q) num_rows)
      end
  end.

(** The loop [while x + block_width < width] that fills one row.  [n] is
    the next free object identity.  The loop does not end when the step is
    not positive, hence the fuel; [None] stands for fuel running out. *)
Fixpoint place_row (fuel : nat) (lm : LevelMaker) (x y : Z) (n : nat)
    : option (list Block * nat) :=
  match fuel with
  | O => None
  | S fuel' =>
      if x + fst (block_size (images lm)) <? width (lm_edges lm)
      then
        match place_row fuel' lm
                (x + (fst (block_size (images lm)) + horizontal_margin lm))
                y (S n) with
        | None => None
        | Some (bs, n') =>
            Some (mkBlock n
                    (mkRect x y (fst (block_size (images lm)))
                       (snd (block_size (images lm))))
                    false :: bs, n')
        end
      else Some ([], n)
  end.

(** The loop [for i in range(0, num_of_rows)], [rows] iterations left. *)
Fixpoint place_rows (fuel : nat) (lm : LevelMaker) (rows : nat)
    (y : Z) (n : nat) : option (list Block) :=
  match rows with
  | O => Some []
  | S rows' =>
      match place_row fuel lm (horizontal_margin lm) y n with
      | None => None
      | Some (row, n') =>
          match place_rows fuel lm rows' (y + vertical_margin lm) n' with
          | None => None
          | Some more => Some (row ++ more)
          end
      end
  end.

(** [LevelMaker.get_level]. *)
Definition get_level (fuel : nat) (lm : LevelMaker) : option Level :=
  let e := lm_edges lm in
  let p :=
    mkMovable
      (mkRect (to_int (inject_Z (width e) / 2)%Q)
              (to_int (inject_Z (height e) * (75 # 100))%Q)
              (fst (platform_size (images lm)))
              (snd (platform_size (images lm))))
      (mkVec 5 0) in
  let v := py_round (inject_Z (height e) * (5 # 1000))%Q in
  let b :=
    mkMovable
      (mkRect 0 0 (fst (ball_size (images lm))) (snd (ball_size (images lm))))
      (mkVec (inject_Z v) (inject_Z (- v))) in
  let top_margin := rh (rect b) * 3 in
  let y := py_round (inject_Z (rh (rect b)) * (22 # 10)
                     + inject_Z top_margin)%Q in
  match place_rows fuel lm (Z.to_nat (num_of_rows lm)) y 0%nat with
  | None => None
  | Some bs =>
      Some (Level_init 4 bs p b (width e) (height e) top_margin)
  end.

(** *** The frame loop of Game.run *)

Inductive Key : Type := K_SPACE | K_q | K_DELETE | K_other.

Inductive Event : Type :=
| QUIT
| KEYDOWN (k : Key)
| OtherEvent.

(** The local variables of [Game.run] that the loop changes. *)
Record Loop : Type := mkLoop {
  running : bool;
  is_paused : bool;
  level : Level;
  is_menu_showing : bool
}.

(** One event of [for event in pygame.event.get()].  A reset asks the level
    maker for a new level. *)
Definition handle_event (fuel : nat) (lm : LevelMaker) (e : Event) (s : Loop)
    : option Loop :=
  match e with
  | QUIT => Some (mkLoop false (is_paused s) (level s) (is_menu_showing s))
  | KEYDOWN K_SPACE =>
      Some (mkLoop (running s) (negb (is_paused s)) (level s) false)
  | KEYDOWN K_q =>
      Some (mkLoop false (is_paused s) (level s) (is_menu_showing s))
  | KEYDOWN K_DELETE =>
      match get_level fuel lm with
      | None => None
      | Some fresh => Some (mkLoop (running s) false fresh true)
      end
  | KEYDOWN K_other => Some s
  | OtherEvent => Some s
  end.

Fixpoint handle_events (fuel : nat) (lm : LevelMaker) (es : list Event)
    (s : Loop) : option Loop :=
  match es with
  | [] => Some s
  | e :: rest =>
      match handle_event fuel lm e s with
      | None => None
      | Some s' => handle_events fuel lm rest s'
      end
  end.

(** The simulation step of one frame:
    [if is_game_over ... elif is_player_won ... elif not is_paused:
    level.update()]. *)
Definition simulate (k : Keys) (s : Loop) : Loop :=
  if is_game_over (state (level s)) then s
  else if is_player_won (state (level s)) then s
  else if negb (is_paused s)
  then mkLoop (running s) (is_paused s) (update k (level s))
         (is_menu_showing s)
  else s.

(** One iteration of [while running]; drawing changes no state. *)
Definition frame (fuel : nat) (lm : LevelMaker) (es : list Event) (k : Keys)
    (s : Loop) : option Loop :=
  match handle_events fuel lm es s with
  | None => None
  | Some s' => Some (simulate k s')
  end.

(** The loop over the inputs of successive frames; it stops at the first
    frame that starts with [running] false. *)
Fixpoint run_frames (fuel : nat) (lm : LevelMaker)
    (inputs : list (list Event * Keys)) (s : Loop) : option Loop :=
  match inputs with
  | [] => Some s
  | (es, k) :: rest =>
      if running s
      then
        match frame fuel lm es k s with
        | None => None
        | Some s' => run_frames fuel lm rest s'
        end
      else Some s
  end.

(** The frame brings no reset key. *)
Definition no_reset (es : list Event) : Prop := ~ In (KEYDOWN K_DELETE) es.

(* ------------------------------------------------------------------ *)
(** ** Statements of the specification and concrete game situations *)

(** The boundary, platform and ball of the 700x500 game. *)
Definition edges_700 : Rect := mkRect 0 45 700 500.

Definition entity (x y w h : Z) (sx sy : Q) : MovableEntity :=
  mkMovable (mkRect x y w h) (mkVec sx sy).

Definition playing (lifes0 : Z) : GameState :=
  mkGameState (mkVec 2 (-2)) 0 lifes0 false true false.

Definition no_keys : Keys := mkKeys false false false.

(** *** Horizontal resolution *)

(** An edge coordinate lies strictly inside the horizontal span of [e]. *)
Definition inside_span (v : Z) (e : Rect) : Prop := left e < v < right e.

(** The specification's wording of the horizontal resolution: the right
    edge is snapped when it is inside the obstacle's span and the left edge
    is not, the left edge otherwise; the X velocity is negated. *)
Definition resolve_x_as_specified (m : MovableEntity) (e : Rect) : Prop :=
  let m' := adjust_on_x_collision m e in
  let approaching_from_left :=
    inside_span (right (rect m)) e /\ ~ inside_span (left (rect m)) e in
  (approaching_from_left -> right (rect m') = left e) /\
  (~ approaching_from_left -> left (rect m') = right e) /\
  vx (speed m') = (- vx (speed m))%Q.

(** A ball whose horizontal span lies within the platform's, overlapping
    it from above by five pixels. *)
Definition ball_within_platform : MovableEntity := entity 120 365 15 15 2 (-2).
Definition platform_at_100 : Rect := mkRect 100 375 65 20.

(** Scenario B: the ball has just moved right by 2 and overlaps the left
    end of the platform with its right edge only. *)
Definition ball_scenario_B : MovableEntity := entity 86 370 15 15 2 (-2).

(** *** The anti-squeeze step *)

(** The level of a tick after key processing and both collision passes. *)
Definition after_passes (k : Keys) (l : Level) : Level :=
  y_pass (x_pass (process_key_presses k l)).

(** The ball's vertical span has crossed into the platform's. *)
Definition crossed_into_platform (l : Level) : Prop :=
  top (rect (ball l)) < bottom (rect (platform l)) /\
  top (rect (platform l)) < bottom (rect (ball l)).

(** The ball's horizontal span is outside the boundary. *)
Definition outside_boundary (l : Level) : Prop :=
  right (rect (ball l)) > right (edges l) \/
  left (rect (ball l)) < left (edges l).

(** The condition the source tests. *)
Definition squeezed (l : Level) : Prop :=
  (bottom (rect (ball l)) < top (rect (platform l)) \/
   top (rect (ball l)) < bottom (rect (platform l))) /\
  outside_boundary l.

(** The specification's wording: under the conjunction the tick leaves
    the ball above the platform, and the ball is repositioned by this step
    only under the conjunction. *)
Definition squeeze_as_specified (k : Keys) (l : Level) : Prop :=
  let m := after_passes k l in
  let l' := update k l in
  (crossed_into_platform m /\ outside_boundary m ->
   bottom (rect (ball l')) <= top (rect (platform l'))) /\
  (rect (ball l') <> rect (ball m) ->
   crossed_into_platform m /\ outside_boundary m).

Definition one_block : list Block := [mkBlock 0 (mkRect 21 78 45 20) false].

Definition key_a_held : Keys := mkKeys false true false.
Definition key_d_held : Keys := mkKeys false false true.

(** The ball beside the platform, against the left wall, while the
    platform is driven toward it. *)
Definition level_squeezed : Level :=
  mkLevel one_block (entity 15 375 65 20 5 0) (entity 0 378 15 15 (-2) 2)
    edges_700 (playing 4).

(** *** Blocks hit in one pass *)





(** *** Cleanup *)

(** A block to the right of the ball and a block above it: the ball,
    moving right and up, strikes the first on the X pass and the second on
    the Y pass of the same tick. *)
Definition block_beside : Block := mkBlock 0 (mkRect 116 290 45 20) false.
Definition block_above : Block := mkBlock 1 (mkRect 60 279 45 20) false.

Definition level_corner : Level :=
  mkLevel [block_beside; block_above] (entity 350 375 65 20 5 0)
    (entity 100 300 15 15 2 (-2)) edges_700 (playing 4).

(** *** Velocity magnitude *)

(** No block is flagged or removed by the tick. *)
Definition no_block_destroyed (k : Keys) (l : Level) : Prop :=
  blocks (update k l) = blocks l.

(** The specification's wording: a tick that destroys no block keeps the
    absolute value of each velocity component. *)
Definition speed_kept_as_specified (k : Keys) (l : Level) : Prop :=
  no_block_destroyed k l ->
  (Qabs (vx (speed (ball (update k l)))) == Qabs (vx (speed (ball l))))%Q /\
  (Qabs (vy (speed (ball (update k l)))) == Qabs (vy (speed (ball l))))%Q.

(** The ball one pixel above the bottom of the boundary, falling. *)
Definition level_ball_lost : Level :=
  mkLevel one_block (entity 350 375 65 20 5 0) (entity 300 529 15 15 2 2)
    edges_700 (playing 4).

(** The ball in free flight, far from everything. *)
Definition level_free_flight : Level :=
  mkLevel one_block (entity 350 375 65 20 5 0) (entity 300 200 15 15 2 (-2))
    edges_700 (playing 4).

(** *** Life loss *)

(** On the Y pass the displaced ball does not collide with the platform
    and its bottom edge is beyond the bottom of the boundary. *)
Definition ball_lost (k : Keys) (l : Level) : Prop :=
  let l1 := x_pass (process_key_presses k l) in
  let b := advance_y (ball l1) in
  is_collided_with b (rect (platform l1)) = false /\
  bottom (rect b) > bottom (edges l1).

(** The specification's wording, read at the end of the tick. *)
Definition life_loss_as_specified (k : Keys) (l : Level) : Prop :=
  ball_lost k l ->
  let l' := update k l in
  lifes (state l') = lifes (state l) - 1 /\
  is_ball_released (state l') = false /\
  bottom (rect (ball l')) = top (rect (platform l')) /\
  centerx (rect (ball l')) = centerx (rect (platform l')) /\
  (vx (speed (ball l')) == 0)%Q /\ (vy (speed (ball l')) == 0)%Q /\
  (lifes (state l) = 1 ->
   lifes (state l') = 0 /\ is_game_over (state l') = true).

(** The last life: the platform stands against the right wall, the key
    [d] is held and the ball falls past the bottom. *)
Definition level_right_wall : Level :=
  mkLevel one_block (entity 635 375 65 20 5 0) (entity 300 529 15 15 2 2)
    edges_700 (playing 1).

(** The same fall with the platform in the middle and no key held. *)
Definition level_last_life : Level :=
  mkLevel one_block (entity 350 375 65 20 5 0) (entity 300 529 15 15 2 2)
    edges_700 (playing 1).

(** *** The frame loop *)

(** The level maker of the 700x500 game with 10 columns and 5 rows. *)
Definition level_maker_A : LevelMaker :=
  mkLevelMaker (mkEdges 700 500) (mkImages (65, 20) (15, 15) (45, 20))
    21 30 5.

(** A loop whose level has just lost its last life. *)
Definition loop_game_over : Loop :=
  mkLoop true false (update no_keys level_last_life) false.

(** *** Construction *)

(** A construction input the specification calls malformed: a boundary
    without extent, or no rows or columns of blocks.  (Lives are not an
    input of construction: [get_level] always gives 4.) *)
Definition malformed (e : Edges) (num_of_columns num_rows : Z) : Prop :=
  width e <= 0 \/ height e <= 0 \/ num_of_columns <= 0 \/ num_rows <= 0.

(** The specification's wording: a malformed input makes construction
    fail with an error. *)
Definition validation_as_specified (e : Edges) (num_of_columns num_rows : Z)
    : Prop :=
  malformed e num_of_columns num_rows ->
  exists err, Game_init e num_of_columns num_rows = Raise err.

(** The specification's formula for the blocks of one row. *)
Definition columns_fit_per_row_as_specified (lm : LevelMaker) : Z :=
  (width (lm_edges lm) - 2 * horizontal_margin lm)
  / (fst (block_size (images lm)) + horizontal_margin lm).

(** The blocks the loop of [get_level] puts in one row: a block starts at
    [margin + i * (block_width + margin)] for as long as its right edge is
    left of the boundary's width. *)
Definition columns_per_row (lm : LevelMaker) : Z :=
  Z.max 0 ((width (lm_edges lm) - 1)
           / (fst (block_size (images lm)) + horizontal_margin lm)).

(* ------------------------------------------------------------------ *)
(** ** Relations used in the proofs *)

(** The parts of the level that key processing never touches. *)
Definition keys_frame (l l' : Level) : Prop :=
  blocks l' = blocks l /\ edges l' = edges l /\
  score (state l') = score (state l) /\
  lifes (state l') = lifes (state l) /\
  is_game_over (state l') = is_game_over (state l) /\
  is_player_won (state l') = is_player_won (state l) /\
  ball_released_speed (state l') = ball_released_speed (state l).

(** What a pass may do to the block list: same blocks in the same order,
    flags only ever raised. *)
Definition flags_grow (bs bs' : list Block) : Prop :=
  Forall2 (fun a a' => ident a' = ident a /\ block_rect a' = block_rect a /\
                       (is_destroyed a = true -> is_destroyed a' = true))
          bs bs'.

(** What a block loop may do to the ball. *)
Record x_moved (b b' : MovableEntity) : Prop := {
  xm_abs : Qabs (vx (speed b')) = Qabs (vx (speed b));
  xm_vy : vy (speed b') = vy (speed b);
  xm_ry : ry (rect b') = ry (rect b);
  xm_rw : rw (rect b') = rw (rect b);
  xm_rh : rh (rect b') = rh (rect b)
}.

Record y_moved (b b' : MovableEntity) : Prop := {
  ym_abs : Qabs (vy (speed b')) = Qabs (vy (speed b));
  ym_vx : vx (speed b') = vx (speed b);
  ym_rx : rx (rect b') = rx (rect b);
  ym_rw : rw (rect b') = rw (rect b);
  ym_rh : rh (rect b') = rh (rect b)
}.

(** Splits conjunctions only, leaving records whole. *)
Ltac split_and := repeat match goal with |- _ /\ _ => split end.

(** The list the cleanup loop leaves when the identities are distinct: a
    destroyed block is dropped and the block after it is passed over, kept
    without a test. *)
Fixpoint sweep (bs : list Block) : list Block :=
  match bs with
  | [] => []
  | b :: rest =>
      if is_destroyed b
      then match rest with
           | [] => []
           | c :: rest' => c :: sweep rest'
           end
      else b :: sweep rest
  end.

(** The blocks of the level are distinct objects. *)
Definition distinct (l : Level) : Prop := NoDup (map ident (blocks l)).

(** The blocks of the level before cleanup, in a tick with keys [k]. *)
Definition before_cleanup (k : Keys) (l : Level) : Level :=
  process_collisions (process_key_presses k l).

(** No block of [bs] overlaps the ball [b]. *)
Definition all_miss (b : MovableEntity) (bs : list Block) : Prop :=
  Forall (fun p => is_collided_with b (block_rect p) = false) bs.


(** [MovableEntity.move]: the entity moves by its speed, both components
    converted to [int]. *)
Definition movable_move (m : MovableEntity) : MovableEntity :=
  with_rect m (move_ip (rect m) (vx (speed m)) (vy (speed m))).

(** What a tick may do to the platform: its row and size stay, its speed
    keeps its magnitude and its vertical component. *)
Record platform_kept (p p' : MovableEntity) : Prop := {
  pk_ry : ry (rect p') = ry (rect p);
  pk_rw : rw (rect p') = rw (rect p);
  pk_rh : rh (rect p') = rh (rect p);
  pk_abs : Qabs (vx (speed p')) = Qabs (vx (speed p));
  pk_vy : vy (speed p') = vy (speed p)
}.

(** A ball that has not been released does not move. *)
Definition at_rest (l : Level) : Prop :=
  is_ball_released (state l) = false ->
  (vx (speed (ball l)) == 0)%Q /\ (vy (speed (ball l)) == 0)%Q.

(** Two neighbours in the list are both flagged destroyed. *)
Fixpoint adjacent_destroyed (bs : list Block) : bool :=
  match bs with
  | [] => false
  | a :: rest =>
      match rest with
      | [] => false
      | b :: _ => (is_destroyed a && is_destroyed b) || adjacent_destroyed rest
      end
  end.

(** The blocks a mark-then-filter cleanup would keep. *)
Definition live_blocks (bs : list Block) : list Block :=
  filter (fun b => negb (is_destroyed b)) bs.

(** The events of a frame ask the loop to stop. *)
Definition quits (es : list Event) : Prop :=
  In QUIT es \/ In (KEYDOWN K_q) es.

(** The rectangle lies within the boundary, side to side. *)
Definition inside_walls (r e : Rect) : Prop :=
  left e <= left r /\ right r <= right e.

(** The rectangle lies within the boundary, top to bottom. *)
Definition inside_floor_and_ceiling (r e : Rect) : Prop :=
  top e <= top r /\ bottom r <= bottom e.

(** The ball rises into the single block from below. *)
Definition level_one_hit : Level :=
  mkLevel one_block (entity 350 375 65 20 5 0) (entity 30 99 15 15 2 (-2))
    edges_700 (playing 4).

(** A loop whose level has just been cleared of its only block. *)
Definition loop_won : Loop :=
  mkLoop true false (update no_keys level_one_hit) false.

(** The row line on which the level maker starts to lay blocks. *)
Definition first_row (lm : LevelMaker) : Z :=
  py_round (inject_Z (snd (ball_size (images lm))) * (22 # 10)
            + inject_Z (snd (ball_size (images lm)) * 3))%Q.

(** Where the level maker may put a block: between the margin and the
    boundary's width, on one of the row lines, with the size of the block
    image and its flag down. *)
Definition well_placed (lm : LevelMaker) (b : Block) : Prop :=
  horizontal_margin lm <= left (block_rect b) /\
  right (block_rect b) < width (lm_edges lm) /\
  rw (block_rect b) = fst (block_size (images lm)) /\
  rh (block_rect b) = snd (block_size (images lm)) /\
  (exists i, (i < Z.to_nat (num_of_rows lm))%nat /\
             top (block_rect b)
             = first_row lm + Z.of_nat i * vertical_margin lm) /\
  is_destroyed b = false.

(** A board four pixels wide: margin and block width both round to 0. *)
Definition level_maker_narrow : LevelMaker :=
  mkLevelMaker (mkEdges 4 500) (mkImages (65, 20) (15, 15) (0, 20)) 0 30 1.

(** An integer that fits a C [int], as pygame wants the sizes of a window.
    Within this range the float arithmetic of [Game.__init__] agrees with
    the rational arithmetic used here and raises no [OverflowError]. *)
Definition c_int (z : Z) : Prop := - 2 ^ 31 <= z < 2 ^ 31.

(** The horizontal margin [Game.__init__] derives from the width. *)
Definition derived_margin (e : Edges) : Z :=
  py_round (inject_Z (width e) * (3 # 100))%Q.

(** The block width [Game.__init__] derives, before it is rounded. *)
Definition derived_width (e : Edges) (num_of_columns : Z) : Q :=
  (inject_Z (width e - derived_margin e * 2
             - derived_margin e * num_of_columns)
   / inject_Z num_of_columns)%Q.

(** The level maker with another row count. *)
Definition set_rows (lm : LevelMaker) (r : Z) : LevelMaker :=
  mkLevelMaker (lm_edges lm) (images lm) (horizontal_margin lm)
    (vertical_margin lm) r.

(** The level maker [Game.__init__] gives for the same input with the
    boundary's height set to zero. *)
Definition flattened (lm : LevelMaker) : LevelMaker :=
  mkLevelMaker (mkEdges (width (lm_edges lm)) 0) (images lm)
    (horizontal_margin lm) 0 (num_of_rows lm).

(** The number of blocks of the level [get_level] makes, if it makes
    one. *)
Definition block_count (fuel : nat) (lm : LevelMaker) : option nat :=
  option_map (fun l => length (blocks l)) (get_level fuel lm).

(** Two level makers that lay out the same columns and rows. *)
Definition same_columns (lm lm' : LevelMaker) : Prop :=
  width (lm_edges lm) = width (lm_edges lm') /\
  fst (block_size (images lm)) = fst (block_size (images lm')) /\
  horizontal_margin lm = horizontal_margin lm' /\
  num_of_rows lm = num_of_rows lm'.

(* Integer arithmetic stays folded under [cbn] and [simpl]. *)
#[local] Arguments Z.add : simpl never.
#[local] Arguments Z.sub : simpl never.
#[local] Arguments Z.mul : simpl never.
#[local] Arguments Z.opp : simpl never.
#[local] Arguments Z.div : simpl never.
#[local] Arguments Z.quot : simpl never.
#[local] Arguments Z.of_nat : simpl never.

(* ------------------------------------------------------------------ *)
(** ** What each step of a tick leaves alone *)

Lemma keys_frame_refl (l : Level) : keys_frame l l.
Proof. repeat split. Qed.

Lemma keys_frame_trans (a b c : Level) :
  keys_frame a b -> keys_frame b c -> keys_frame a c.
Proof.
  unfold keys_frame. intros (A1 & A2 & A3 & A4 & A5 & A6 & A7)
                            (B1 & B2 & B3 & B4 & B5 & B6 & B7).
  repeat split; congruence.
Qed.

Lemma release_ball_frame (l : Level) : keys_frame l (release_ball l).
Proof.
  unfold release_ball. destruct (is_ball_released (state l));
    unfold keys_frame; cbn; repeat split; reflexivity.
Qed.

(** Moving the platform at a chosen speed keeps the ball's velocity and
    the released flag. *)
Lemma key_update_frame (l : Level) (q : Q) :
  let l' := key_update (set_platform_speed_x l q) in
  keys_frame l l' /\ speed (ball l') = speed (ball l) /\
  is_ball_released (state l') = is_ball_released (state l).
Proof.
  unfold key_update. cbn.
  destruct (is_ball_released (state l)) eqn:E; unfold keys_frame; cbn;
    rewrite ?E; repeat split; reflexivity.
Qed.

Section Frames.

Variable k : Keys.
Variable l : Level.

(** Key processing touches neither the blocks, the boundary, the score,
    the lives nor the termination flags. *)
Lemma process_key_presses_frame :
  keys_frame l (process_key_presses k l).
Proof.
  unfold process_key_presses.
  set (l1 := if key_ctrl k then release_ball l else l).
  assert (H1 : keys_frame l l1)
    by (subst l1; destruct (key_ctrl k);
        [apply release_ball_frame|apply keys_frame_refl]).
  clearbody l1.
  set (l2 := if key_a k then _ else l1).
  assert (H2 : keys_frame l1 l2)
    by (subst l2; destruct (key_a k);
        [apply key_update_frame|apply keys_frame_refl]).
  clearbody l2.
  apply (keys_frame_trans _ _ _ H1), (keys_frame_trans _ _ _ H2).
  destruct (key_d k); [apply key_update_frame|apply keys_frame_refl].
Qed.

(** Key processing changes the ball's velocity only by releasing it. *)
Lemma process_key_presses_speed :
  speed (ball (process_key_presses k l)) =
  if key_ctrl k && negb (is_ball_released (state l))
  then ball_released_speed (state l)
  else speed (ball l).
Proof.
  unfold process_key_presses.
  set (l1 := if key_ctrl k then release_ball l else l).
  assert (H1 : speed (ball l1) =
               if key_ctrl k && negb (is_ball_released (state l))
               then ball_released_speed (state l) else speed (ball l)).
  { subst l1. unfold release_ball.
    destruct (key_ctrl k), (is_ball_released (state l)); reflexivity. }
  clearbody l1. rewrite <- H1. clear H1.
  set (l2 := if key_a k then _ else l1).
  assert (H2 : speed (ball l2) = speed (ball l1))
    by (subst l2; destruct (key_a k);
        [apply key_update_frame|reflexivity]).
  clearbody l2. rewrite <- H2.
  destruct (key_d k); [apply key_update_frame|reflexivity].
Qed.

Lemma process_key_presses_released :
  is_ball_released (state (process_key_presses k l)) =
  key_ctrl k || is_ball_released (state l).
Proof.
  unfold process_key_presses.
  set (l1 := if key_ctrl k then release_ball l else l).
  assert (H1 : is_ball_released (state l1) =
               key_ctrl k || is_ball_released (state l)).
  { subst l1. unfold release_ball.
    destruct (key_ctrl k), (is_ball_released (state l)) eqn:E;
      cbn; congruence. }
  clearbody l1. rewrite <- H1. clear H1.
  set (l2 := if key_a k then _ else l1).
  assert (H2 : is_ball_released (state l2) = is_ball_released (state l1))
    by (subst l2; destruct (key_a k);
        [apply key_update_frame|reflexivity]).
  clearbody l2. rewrite <- H2.
  destruct (key_d k); [apply key_update_frame|reflexivity].
Qed.

End Frames.

(** The anti-squeeze step moves the ball vertically and nothing else. *)
Lemma anti_squeeze_frame (l : Level) :
  let l' := anti_squeeze l in
  blocks l' = blocks l /\ platform l' = platform l /\ edges l' = edges l /\
  state l' = state l /\ speed (ball l') = speed (ball l) /\
  rx (rect (ball l')) = rx (rect (ball l)) /\
  rw (rect (ball l')) = rw (rect (ball l)) /\
  rh (rect (ball l')) = rh (rect (ball l)).
Proof.
  unfold anti_squeeze.
  destruct (is_squeezing_on_y l && is_squeezing_on_x l); cbn;
    repeat split; reflexivity.
Qed.

(** The platform clamp changes the platform's column and the sign of its
    speed, nothing else. *)
Lemma platform_clamp_frame (l : Level) :
  let l' := platform_clamp l in
  blocks l' = blocks l /\ ball l' = ball l /\ edges l' = edges l /\
  state l' = state l /\
  ry (rect (platform l')) = ry (rect (platform l)) /\
  rw (rect (platform l')) = rw (rect (platform l)) /\
  rh (rect (platform l')) = rh (rect (platform l)).
Proof.
  unfold platform_clamp.
  destruct (right (rect (platform l)) >? right (edges l));
    [|destruct (left (rect (platform l)) <? left (edges l))];
    cbn; repeat split; reflexivity.
Qed.

(** The termination check sets flags only. *)
Lemma check_termination_frame (l : Level) :
  let l' := check_termination l in
  blocks l' = blocks l /\ platform l' = platform l /\ ball l' = ball l /\
  edges l' = edges l /\
  score (state l') = score (state l) /\
  lifes (state l') = lifes (state l) /\
  is_ball_released (state l') = is_ball_released (state l).
Proof.
  destruct l as [bs p b e s]. unfold check_termination. cbn.
  destruct (lifes s <? 1); [|destruct bs]; cbn; repeat split; reflexivity.
Qed.

(* ------------------------------------------------------------------ *)
(** ** The cleanup loop *)

Lemma list_remove_In (b x : Block) (bs : list Block) :
  In x (list_remove b bs) -> In x bs.
Proof.
  induction bs as [|c rest IH]; cbn; [tauto|].
  destruct (Nat.eqb (ident c) (ident b)); cbn; intuition.
Qed.

Lemma list_remove_length (b : Block) (bs : list Block) :
  In (ident b) (map ident bs) ->
  S (length (list_remove b bs)) = length bs.
Proof.
  induction bs as [|c rest IH]; cbn; [tauto|].
  destruct (Nat.eqb (ident c) (ident b)) eqn:E; [reflexivity|].
  intros [H|H].
  - apply Nat.eqb_neq in E. contradiction.
  - cbn. f_equal. apply IH, H.
Qed.

Lemma nth_error_ident (bs : list Block) (i : nat) (b : Block) :
  nth_error bs i = Some b -> In (ident b) (map ident bs).
Proof.
  intros H. apply in_map, (nth_error_In _ _ H).
Qed.

(** Removing a block whose identity occurs once, at position [length pre]. *)
Lemma list_remove_middle (b : Block) (pre post : list Block) :
  ~ In (ident b) (map ident pre) ->
  list_remove b (pre ++ b :: post) = pre ++ post.
Proof.
  induction pre as [|c pre IH]; cbn.
  - rewrite Nat.eqb_refl. reflexivity.
  - intros H. destruct (Nat.eqb (ident c) (ident b)) eqn:E.
    + apply Nat.eqb_eq in E. tauto.
    + f_equal. apply IH. tauto.
Qed.

(** More fuel than the list is long changes nothing: the loop of the
    source always ends, and [cleanup] gives it enough fuel. *)
Lemma cleanup_loop_fuel (f1 : nat) :
  forall (f2 i : nat) (l : Level),
    (length (blocks l) - i <= f1)%nat ->
    (length (blocks l) - i <= f2)%nat ->
    cleanup_loop f1 i l = cleanup_loop f2 i l.
Proof.
  induction f1 as [|f1 IH]; intros f2 i l H1 H2.
  - assert (Hn : nth_error (blocks l) i = None)
      by (apply nth_error_None; lia).
    destruct f2; cbn; [reflexivity|]. rewrite Hn. reflexivity.
  - destruct f2 as [|f2].
    + assert (Hn : nth_error (blocks l) i = None)
        by (apply nth_error_None; lia).
      cbn. rewrite Hn. reflexivity.
    + cbn. destruct (nth_error (blocks l) i) as [b|] eqn:E; [|reflexivity].
      destruct (is_destroyed b).
      * pose proof (list_remove_length b (blocks l) (nth_error_ident _ _ _ E)).
        apply IH; cbn; lia.
      * apply IH; lia.
Qed.

(** The cleanup loop leaves platform, boundary, ball position, lives and
    flags alone; it never adds a block. *)
Lemma cleanup_loop_frame (fuel : nat) :
  forall (i : nat) (l : Level),
    let l' := cleanup_loop fuel i l in
    platform l' = platform l /\ edges l' = edges l /\
    rect (ball l') = rect (ball l) /\
    lifes (state l') = lifes (state l) /\
    is_game_over (state l') = is_game_over (state l) /\
    is_ball_released (state l') = is_ball_released (state l) /\
    is_player_won (state l') = is_player_won (state l) /\
    (forall x, In x (blocks l') -> In x (blocks l)).
Proof.
  induction fuel as [|fuel IH]; intros i l; cbv zeta; cbn.
  - repeat split; auto.
  - destruct (nth_error (blocks l) i) as [b|]; [|repeat split; auto].
    destruct (is_destroyed b); [|apply IH].
    destruct (IH (S i) (remove_block b l)) as (H1 & H2 & H3 & H4 & H5 & H6 & H7 & H8).
    repeat split; try assumption.
    intros x Hx. apply (list_remove_In b), (H8 x Hx).
Qed.

(** Conservation: the cleanup loop adds exactly 100 per removed block. *)
Lemma cleanup_loop_score (fuel : nat) :
  forall (i : nat) (l : Level),
    let l' := cleanup_loop fuel i l in
    (length (blocks l') <= length (blocks l))%nat /\
    score (state l') =
    score (state l)
    + 100 * (Z.of_nat (length (blocks l)) - Z.of_nat (length (blocks l'))).
Proof.
  induction fuel as [|fuel IH]; intros i l; cbv zeta; cbn.
  - split; lia.
  - destruct (nth_error (blocks l) i) as [b|] eqn:E; [|split; lia].
    destruct (is_destroyed b); [|apply IH].
    destruct (IH (S i) (remove_block b l)) as [Hle Hsc].
    pose proof (list_remove_length b (blocks l) (nth_error_ident _ _ _ E)) as Hl.
    cbn in Hle, Hsc. split; [lia|]. rewrite Hsc. lia.
Qed.

(** A cleanup that removes nothing changes nothing. *)
Lemma cleanup_loop_same_length (fuel : nat) :
  forall (i : nat) (l : Level),
    length (blocks (cleanup_loop fuel i l)) = length (blocks l) ->
    cleanup_loop fuel i l = l.
Proof.
  induction fuel as [|fuel IH]; intros i l; cbn; [reflexivity|].
  destruct (nth_error (blocks l) i) as [b|] eqn:E; [|reflexivity].
  destruct (is_destroyed b); [|apply IH].
  intros H. exfalso.
  pose proof (list_remove_length b (blocks l) (nth_error_ident _ _ _ E)) as Hl.
  destruct (cleanup_loop_score fuel (S i) (remove_block b l)) as [Hle _].
  cbn in Hle. lia.
Qed.

(** A ball at rest stays at rest through the cleanup loop. *)
Lemma cleanup_loop_rest (fuel : nat) :
  forall (i : nat) (l : Level),
    (vx (speed (ball l)) == 0)%Q -> (vy (speed (ball l)) == 0)%Q ->
    (vx (speed (ball (cleanup_loop fuel i l))) == 0)%Q /\
    (vy (speed (ball (cleanup_loop fuel i l))) == 0)%Q.
Proof.
  induction fuel as [|fuel IH]; intros i l Hx Hy; cbn; [tauto|].
  destruct (nth_error (blocks l) i) as [b|]; [|tauto].
  destruct (is_destroyed b); [|apply IH; assumption].
  apply IH; cbn; [rewrite Hx|rewrite Hy]; reflexivity.
Qed.

(** The same facts for [cleanup], the loop with the fuel it is run with. *)
Lemma cleanup_frame (l : Level) :
  platform (cleanup l) = platform l /\ edges (cleanup l) = edges l /\
  rect (ball (cleanup l)) = rect (ball l) /\
  lifes (state (cleanup l)) = lifes (state l) /\
  is_game_over (state (cleanup l)) = is_game_over (state l) /\
  is_ball_released (state (cleanup l)) = is_ball_released (state l) /\
  is_player_won (state (cleanup l)) = is_player_won (state l) /\
  (forall x, In x (blocks (cleanup l)) -> In x (blocks l)).
Proof. exact (cleanup_loop_frame (length (blocks l)) 0 l). Qed.

Lemma cleanup_score (l : Level) :
  (length (blocks (cleanup l)) <= length (blocks l))%nat /\
  score (state (cleanup l)) =
  score (state l)
  + 100 * (Z.of_nat (length (blocks l))
           - Z.of_nat (length (blocks (cleanup l)))).
Proof. exact (cleanup_loop_score (length (blocks l)) 0 l). Qed.

Lemma cleanup_same_length (l : Level) :
  length (blocks (cleanup l)) = length (blocks l) -> cleanup l = l.
Proof. exact (cleanup_loop_same_length (length (blocks l)) 0 l). Qed.

Lemma cleanup_rest (l : Level) :
  (vx (speed (ball l)) == 0)%Q -> (vy (speed (ball l)) == 0)%Q ->
  (vx (speed (ball (cleanup l))) == 0)%Q /\
  (vy (speed (ball (cleanup l))) == 0)%Q.
Proof. exact (cleanup_loop_rest (length (blocks l)) 0 l). Qed.

(* ------------------------------------------------------------------ *)
(** ** The collision passes *)

(** Reflection keeps the magnitude, as a plain equality of fractions. *)
Lemma Qabs_opp_eq (q : Q) : Qabs (- q) = Qabs q.
Proof.
  destruct q as [n d]. unfold Qabs, Qopp. cbn [Qnum Qden].
  rewrite Z.abs_opp. reflexivity.
Qed.

Lemma flags_grow_refl (bs : list Block) : flags_grow bs bs.
Proof.
  induction bs; constructor; auto.
Qed.

Lemma flags_grow_trans (a b c : list Block) :
  flags_grow a b -> flags_grow b c -> flags_grow a c.
Proof.
  intros H. revert c. induction H as [|x y xs ys Hxy _ IH]; intros c Hc.
  - inversion Hc. constructor.
  - inversion Hc as [|y' z ys' zs Hyz Hrest]; subst.
    constructor; [|apply IH, Hrest].
    destruct Hxy as (A1 & A2 & A3), Hyz as (B1 & B2 & B3).
    repeat split; try congruence. auto.
Qed.

Lemma flags_grow_ident (bs bs' : list Block) :
  flags_grow bs bs' -> map ident bs' = map ident bs.
Proof.
  induction 1 as [|x y xs ys (H & _) _ IH]; cbn; congruence.
Qed.

Lemma flags_grow_length (bs bs' : list Block) :
  flags_grow bs bs' -> length bs' = length bs.
Proof.
  intros H. apply flags_grow_ident in H.
  rewrite <- (length_map ident bs'), H. apply length_map.
Qed.

(** Every block after the pass comes from a block before it with the same
    identity whose flag was not higher. *)
Lemma flags_grow_In (bs bs' : list Block) (b' : Block) :
  flags_grow bs bs' -> In b' bs' ->
  exists b, In b bs /\ ident b' = ident b /\
            (is_destroyed b = true -> is_destroyed b' = true).
Proof.
  induction 1 as [|x y xs ys (H1 & _ & H3) _ IH]; cbn; [tauto|].
  intros [E|Hin].
  - subst b'. exists x. auto.
  - destruct (IH Hin) as (b & Hb & Hrest). exists b. auto.
Qed.

Lemma flags_grow_nth (bs bs' : list Block) (i : nat) (b : Block) :
  flags_grow bs bs' -> nth_error bs i = Some b ->
  exists b', nth_error bs' i = Some b' /\ ident b' = ident b /\
             (is_destroyed b = true -> is_destroyed b' = true).
Proof.
  intros H. revert i.
  induction H as [|x y xs ys (H1 & _ & H3) _ IH]; intros [|i]; cbn;
    try discriminate.
  - intros [= <-]. exists y. auto.
  - apply IH.
Qed.

Lemma x_moved_refl (b : MovableEntity) : x_moved b b.
Proof. split; reflexivity. Qed.

Lemma y_moved_refl (b : MovableEntity) : y_moved b b.
Proof. split; reflexivity. Qed.

Lemma x_moved_trans (a b c : MovableEntity) :
  x_moved a b -> x_moved b c -> x_moved a c.
Proof. intros [] []; split; congruence. Qed.

Lemma y_moved_trans (a b c : MovableEntity) :
  y_moved a b -> y_moved b c -> y_moved a c.
Proof. intros [] []; split; congruence. Qed.

Lemma adjust_on_x_collision_moved (m : MovableEntity) (e : Rect) :
  x_moved m (adjust_on_x_collision m e).
Proof.
  unfold adjust_on_x_collision.
  destruct (_ && _); split; cbn; try reflexivity; apply Qabs_opp_eq.
Qed.

Lemma adjust_on_y_collision_moved (m : MovableEntity) :
  y_moved m (adjust_on_y_collision m).
Proof.
  unfold adjust_on_y_collision.
  split; cbn; try reflexivity; apply Qabs_opp_eq.
Qed.

Lemma advance_x_moved (m : MovableEntity) : x_moved m (advance_x m).
Proof. split; reflexivity. Qed.

Lemma advance_y_moved (m : MovableEntity) : y_moved m (advance_y m).
Proof. split; reflexivity. Qed.

Lemma x_blocks_spec (bs : list Block) :
  forall b : MovableEntity,
    flags_grow bs (fst (x_blocks bs b)) /\ x_moved b (snd (x_blocks bs b)).
Proof.
  induction bs as [|blk rest IH]; intros b; cbn.
  - split; [constructor|apply x_moved_refl].
  - destruct (is_collided_with b (block_rect blk)).
    + specialize (IH (adjust_on_x_collision b (block_rect blk))).
      destruct (x_blocks rest _) as [rest' b']. cbn in *.
      destruct IH as [Hg Hm]. split.
      * constructor; [cbn; auto|exact Hg].
      * eapply x_moved_trans; [apply adjust_on_x_collision_moved|exact Hm].
    + specialize (IH b). destruct (x_blocks rest b) as [rest' b']. cbn in *.
      destruct IH as [Hg Hm]. split; [|exact Hm].
      constructor; auto.
Qed.

Lemma y_blocks_spec (bs : list Block) :
  forall b : MovableEntity,
    flags_grow bs (fst (y_blocks bs b)) /\ y_moved b (snd (y_blocks bs b)).
Proof.
  induction bs as [|blk rest IH]; intros b; cbn.
  - split; [constructor|apply y_moved_refl].
  - destruct (is_collided_with b (block_rect blk)).
    + specialize (IH (adjust_on_y_collision b)).
      destruct (y_blocks rest _) as [rest' b']. cbn in *.
      destruct IH as [Hg Hm]. split.
      * constructor; [cbn; auto|exact Hg].
      * eapply y_moved_trans; [apply adjust_on_y_collision_moved|exact Hm].
    + specialize (IH b). destruct (y_blocks rest b) as [rest' b']. cbn in *.
      destruct IH as [Hg Hm]. split; [|exact Hm].
      constructor; auto.
Qed.

(** The X pass: flags only grow, the ball keeps its row, its size and
    the magnitude of its velocity; the rest of the level is untouched. *)
Lemma x_pass_spec (l : Level) :
  flags_grow (blocks l) (blocks (x_pass l)) /\
  x_moved (ball l) (ball (x_pass l)) /\
  platform (x_pass l) = platform l /\ edges (x_pass l) = edges l /\
  state (x_pass l) = state l.
Proof.
  unfold x_pass.
  destruct (is_collided_with _ _).
  { cbn. split_and; try apply flags_grow_refl; try reflexivity.
    eapply x_moved_trans;
      [apply advance_x_moved|apply adjust_on_x_collision_moved]. }
  destruct (_ >? _).
  { cbn. split_and; try apply flags_grow_refl; try reflexivity.
    split; cbn; try reflexivity. apply Qabs_opp_eq. }
  destruct (_ <? _).
  { cbn. split_and; try apply flags_grow_refl; try reflexivity.
    split; cbn; try reflexivity. apply Qabs_opp_eq. }
  destruct (x_blocks_spec (blocks l) (advance_x (ball l))) as [Hg Hm].
  destruct (x_blocks _ _) as [bs' b']. cbn in *.
  split_and; try assumption; try reflexivity.
  eapply x_moved_trans; [apply advance_x_moved|exact Hm].
Qed.

(** The Y pass outside the life-loss branch. *)
Lemma y_pass_spec (l : Level) :
  y_outcome l <> YBottomEdge ->
  flags_grow (blocks l) (blocks (y_pass l)) /\
  y_moved (ball l) (ball (y_pass l)) /\
  platform (y_pass l) = platform l /\ edges (y_pass l) = edges l /\
  state (y_pass l) = state l.
Proof.
  unfold y_pass, y_outcome.
  destruct (is_collided_with _ _).
  { intros _. cbn. split_and; try apply flags_grow_refl; try reflexivity.
    eapply y_moved_trans;
      [apply advance_y_moved|apply adjust_on_y_collision_moved]. }
  destruct (_ >? _); [congruence|].
  destruct (_ <? _).
  { intros _. cbn. split_and; try apply flags_grow_refl; try reflexivity.
    split; cbn; try reflexivity. apply Qabs_opp_eq. }
  intros _.
  destruct (y_blocks_spec (blocks l) (advance_y (ball l))) as [Hg Hm].
  destruct (y_blocks _ _) as [bs' b']. cbn in *.
  split_and; try assumption; try reflexivity.
  eapply y_moved_trans; [apply advance_y_moved|exact Hm].
Qed.

(** The Y pass in the life-loss branch. *)
Lemma y_pass_bottom (l : Level) :
  y_outcome l = YBottomEdge ->
  y_pass l =
  with_state (reset_ball (with_ball l (advance_y (ball l))))
    (set_lifes (set_ball_released (state l) false) (lifes (state l) - 1)).
Proof.
  unfold y_pass, y_outcome.
  destruct (is_collided_with _ _); [discriminate|].
  destruct (_ >? _); [reflexivity|].
  destruct (_ <? _); discriminate.
Qed.

(** In every branch the Y pass raises flags only and leaves platform,
    boundary and score alone. *)
Lemma y_pass_frame (l : Level) :
  flags_grow (blocks l) (blocks (y_pass l)) /\
  platform (y_pass l) = platform l /\ edges (y_pass l) = edges l /\
  score (state (y_pass l)) = score (state l) /\
  lifes (state (y_pass l)) =
    (if match y_outcome l with YBottomEdge => true | _ => false end
     then lifes (state l) - 1 else lifes (state l)).
Proof.
  destruct (y_outcome l) eqn:E;
    try (destruct (y_pass_spec l) as (H1 & H2 & H3 & H4 & H5);
         [congruence|rewrite H5; auto]).
  rewrite (y_pass_bottom l E). cbn.
  split_and; try reflexivity. apply flags_grow_refl.
Qed.

(** The state of a tick after key processing and both collision passes. *)
Lemma process_collisions_blocks (l : Level) :
  flags_grow (blocks l) (blocks (process_collisions l)).
Proof.
  unfold process_collisions.
  destruct (platform_clamp_frame (anti_squeeze (y_pass (x_pass l))))
    as (-> & _).
  destruct (anti_squeeze_frame (y_pass (x_pass l))) as (-> & _).
  eapply flags_grow_trans; [apply x_pass_spec|apply y_pass_frame].
Qed.

Lemma process_collisions_score (l : Level) :
  score (state (process_collisions l)) = score (state l).
Proof.
  unfold process_collisions.
  destruct (platform_clamp_frame (anti_squeeze (y_pass (x_pass l))))
    as (_ & _ & _ & -> & _).
  destruct (anti_squeeze_frame (y_pass (x_pass l))) as (_ & _ & _ & -> & _).
  destruct (y_pass_frame (x_pass l)) as (_ & _ & _ & -> & _).
  destruct (x_pass_spec l) as (_ & _ & _ & _ & ->). reflexivity.
Qed.

(** Conservation over one tick: the score grows by 100 for every block
    that leaves the list, and by nothing else. *)
Lemma update_score (k : Keys) (l : Level) :
  (length (blocks (update k l)) <= length (blocks l))%nat /\
  score (state (update k l)) =
  score (state l)
  + 100 * (Z.of_nat (length (blocks l))
           - Z.of_nat (length (blocks (update k l)))).
Proof.
  unfold update.
  destruct (check_termination_frame
              (cleanup (process_collisions (process_key_presses k l))))
    as (-> & _ & _ & _ & -> & _).
  destruct (cleanup_score (process_collisions (process_key_presses k l)))
    as [Hle Hsc].
  pose proof (flags_grow_length _ _
                (process_collisions_blocks (process_key_presses k l))) as Hlen.
  destruct (process_key_presses_frame k l) as (Hb & _ & Hs & _).
  rewrite Hsc, process_collisions_score, Hs.
  rewrite Hlen, Hb in *. split; [exact Hle|reflexivity].
Qed.

Lemma updates_cons (k : Keys) (ks : list Keys) (l : Level) :
  updates (k :: ks) l = updates ks (update k l).
Proof. lazy beta iota delta [updates] fix. exact eq_refl. Qed.

(** Conservation over any run of ticks. *)
Lemma updates_score (ks : list Keys) :
  forall l : Level,
    (length (blocks (updates ks l)) <= length (blocks l))%nat /\
    score (state (updates ks l)) =
    score (state l)
    + 100 * (Z.of_nat (length (blocks l))
             - Z.of_nat (length (blocks (updates ks l)))).
Proof.
  induction ks as [|k ks IH]; intros l.
  - change (updates [] l) with l. split; lia.
  - rewrite updates_cons.
    destruct (IH (update k l)) as [H1 H2], (update_score k l) as [H3 H4].
    revert H1 H2 H3 H4.
    generalize (updates ks (update k l)) as l2, (update k l) as l1.
    intros l2 l1 H1 H2 H3 H4. split; lia.
Qed.

(* ------------------------------------------------------------------ *)
(** ** The cleanup loop on a list of distinct blocks *)

Lemma cleanup_loop_sweep (fuel : nat) :
  forall (i : nat) (l : Level),
    NoDup (map ident (blocks l)) ->
    (length (blocks l) - i <= fuel)%nat ->
    blocks (cleanup_loop fuel i l) =
    firstn i (blocks l) ++ sweep (skipn i (blocks l)).
Proof.
  induction fuel as [|fuel IH]; intros i l Hnd Hfuel.
  - cbn [cleanup_loop]. rewrite skipn_all2 by lia.
    rewrite firstn_all2 by lia. cbn. rewrite app_nil_r. reflexivity.
  - cbn [cleanup_loop].
    destruct (nth_error (blocks l) i) as [b|] eqn:E.
    2:{ apply nth_error_None in E. rewrite skipn_all2 by lia.
        rewrite firstn_all2 by lia. cbn. rewrite app_nil_r. reflexivity. }
    destruct (nth_error_split _ _ E) as (pre & post & Hsplit & Hlen).
    assert (Hpre : ~ In (ident b) (map ident pre)).
    { rewrite Hsplit, map_app in Hnd. cbn in Hnd.
      apply NoDup_remove_2 in Hnd. intros H. apply Hnd, in_or_app. auto. }
    assert (Hf : forall xs : list Block, firstn i (pre ++ xs) = pre).
    { intros xs. subst i. rewrite firstn_app, Nat.sub_diag, firstn_all.
      cbn. apply app_nil_r. }
    assert (Hs : forall xs : list Block, skipn i (pre ++ xs) = xs).
    { intros xs. subst i. rewrite skipn_app, Nat.sub_diag, skipn_all.
      reflexivity. }
    destruct (is_destroyed b) eqn:Ed.
    + rewrite IH.
      * cbn [remove_block with_ball with_state with_blocks blocks].
        rewrite Hsplit, (list_remove_middle b pre post Hpre), Hf, Hs.
        cbn [sweep]. rewrite Ed.
        destruct post as [|c post'].
        -- rewrite app_nil_r, firstn_all2 by lia.
           rewrite skipn_all2 by lia. cbn [sweep].
           rewrite app_nil_r. reflexivity.
        -- replace (pre ++ c :: post') with ((pre ++ [c]) ++ post')
             by (rewrite <- app_assoc; reflexivity).
           assert (Hl : S i = length (pre ++ [c]))
             by (rewrite length_app; cbn; lia).
           rewrite Hl, firstn_app, Nat.sub_diag, firstn_all.
           rewrite skipn_app, Nat.sub_diag, skipn_all.
           cbn. rewrite app_nil_r, <- app_assoc. reflexivity.
      * cbn [remove_block with_ball with_state with_blocks blocks].
        rewrite Hsplit, (list_remove_middle b pre post Hpre).
        rewrite Hsplit, map_app in Hnd. cbn in Hnd.
        apply NoDup_remove_1 in Hnd. rewrite map_app. exact Hnd.
      * cbn [remove_block with_ball with_state with_blocks blocks].
        pose proof (list_remove_length b (blocks l) (nth_error_ident _ _ _ E)).
        lia.
    + rewrite IH by (assumption || lia).
      rewrite Hsplit, Hf, Hs. cbn [sweep]. rewrite Ed.
      replace (pre ++ b :: post) with ((pre ++ [b]) ++ post)
        by (rewrite <- app_assoc; reflexivity).
      assert (Hl : S i = length (pre ++ [b]))
        by (rewrite length_app; cbn; lia).
      rewrite Hl, firstn_app, Nat.sub_diag, firstn_all.
      rewrite skipn_app, Nat.sub_diag, skipn_all.
      cbn. rewrite app_nil_r, <- app_assoc. reflexivity.
Qed.

Lemma cleanup_sweep (l : Level) :
  NoDup (map ident (blocks l)) -> blocks (cleanup l) = sweep (blocks l).
Proof.
  intros H. unfold cleanup. rewrite cleanup_loop_sweep by (assumption || lia).
  reflexivity.
Qed.

(** The loop only takes blocks away. *)
Lemma sweep_ident_In (xs : list Block) (x : nat) :
  In x (map ident (sweep xs)) -> In x (map ident xs).
Proof.
  remember (length xs) as m eqn:Hm.
  revert xs Hm x. induction m as [m IHm] using lt_wf_ind. intros xs Hm x.
  destruct xs as [|a rest]; cbn; [tauto|].
  destruct (is_destroyed a).
  - destruct rest as [|c rest']; cbn; [tauto|].
    intros [H|H]; [auto|]. right; right.
    apply (IHm (length rest')) in H; [exact H|cbn in Hm; lia|reflexivity].
  - cbn. intros [H|H]; [auto|]. right.
    apply (IHm (length rest)) in H; [exact H|cbn in Hm; lia|reflexivity].
Qed.

Lemma sweep_NoDup (xs : list Block) :
  NoDup (map ident xs) -> NoDup (map ident (sweep xs)).
Proof.
  remember (length xs) as m eqn:Hm.
  revert xs Hm. induction m as [m IHm] using lt_wf_ind. intros xs Hm Hnd.
  destruct xs as [|a rest]; cbn; [constructor|].
  cbn [map] in Hnd. apply NoDup_cons_iff in Hnd. destruct Hnd as [Ha Hrest].
  destruct (is_destroyed a).
  - destruct rest as [|c rest']; cbn; [constructor|].
    cbn [map] in Hrest. apply NoDup_cons_iff in Hrest.
    destruct Hrest as [Hc Hrest'].
    constructor.
    + intros H. apply Hc, sweep_ident_In, H.
    + apply (IHm (length rest')); [cbn in Hm; lia|reflexivity|exact Hrest'].
  - cbn. constructor.
    + intros H. apply Ha, sweep_ident_In, H.
    + apply (IHm (length rest)); [cbn in Hm; lia|reflexivity|exact Hrest].
Qed.

(** A flagged block at position [k] either leaves the list or moves to a
    position before [k]: it is passed over only when the block just before
    it is removed. *)
Lemma sweep_progress (n : nat) :
  forall (bs : list Block) (k : nat) (b : Block),
    (length bs <= n)%nat ->
    NoDup (map ident bs) ->
    nth_error bs k = Some b -> is_destroyed b = true ->
    ~ In (ident b) (map ident (sweep bs)) \/
    exists j, (j < k)%nat /\ nth_error (sweep bs) j = Some b.
Proof.
  induction n as [|n IH]; intros bs k b Hlen Hnd Hk Hd.
  - destruct bs; [destruct k; discriminate|cbn in Hlen; lia].
  - destruct bs as [|a rest]; [destruct k; discriminate|].
    cbn in Hlen. cbn [map] in Hnd.
    pose proof (NoDup_cons_iff (ident a) (map ident rest)) as [Hc _].
    destruct (Hc Hnd) as [Ha Hrest]. clear Hc.
    pose proof sweep_ident_In as Hsub.
    destruct k as [|k]; cbn in Hk.
    + injection Hk as ->. left. cbn [sweep]. rewrite Hd.
      destruct rest as [|c rest']; cbn; [tauto|].
      intros [H|H].
      * apply Ha. cbn. auto.
      * apply Ha. cbn. right. apply Hsub, H.
    + cbn [sweep]. destruct (is_destroyed a) eqn:Eda.
      * destruct rest as [|c rest']; [destruct k; discriminate|].
        destruct k as [|k]; cbn in Hk.
        -- injection Hk as ->. right. exists 0%nat. split; [lia|reflexivity].
        -- cbn [map] in Hrest.
           pose proof (NoDup_cons_iff (ident c) (map ident rest')) as [Hc _].
           destruct (Hc Hrest) as [Hcn Hrest']. clear Hc.
           destruct (IH rest' k b) as [Hgone|(j & Hj & Hnth)];
             try assumption; [cbn in Hlen; lia| |].
           ++ left. cbn. intros [H|H]; [|tauto].
              apply Hcn. rewrite H. apply (nth_error_ident _ _ _ Hk).
           ++ right. exists (S j). split; [lia|exact Hnth].
      * destruct (IH rest k b) as [Hgone|(j & Hj & Hnth)];
          try assumption; [lia| |].
        -- left. cbn. intros [H|H]; [|tauto].
           apply Ha. rewrite H. apply (nth_error_ident _ _ _ Hk).
        -- right. exists (S j). split; [lia|exact Hnth].
Qed.

(* ------------------------------------------------------------------ *)
(** ** Blocks over a run of ticks *)

Lemma update_unfold (k : Keys) (l : Level) :
  update k l = check_termination (cleanup (before_cleanup k l)).
Proof. unfold update, before_cleanup. exact eq_refl. Qed.

Lemma before_cleanup_blocks (k : Keys) (l : Level) :
  flags_grow (blocks l) (blocks (before_cleanup k l)).
Proof.
  unfold before_cleanup.
  pose proof (process_collisions_blocks (process_key_presses k l)) as H.
  destruct (process_key_presses_frame k l) as (Hb & _).
  rewrite Hb in H. exact H.
Qed.

Lemma update_blocks (k : Keys) (l : Level) :
  distinct l -> blocks (update k l) = sweep (blocks (before_cleanup k l)).
Proof.
  intros Hd. rewrite update_unfold.
  destruct (check_termination_frame (cleanup (before_cleanup k l)))
    as (-> & _).
  apply cleanup_sweep.
  rewrite (flags_grow_ident _ _ (before_cleanup_blocks k l)). exact Hd.
Qed.

Lemma update_distinct (k : Keys) (l : Level) :
  distinct l -> distinct (update k l).
Proof.
  intros Hd. unfold distinct. rewrite (update_blocks k l Hd).
  apply sweep_NoDup.
  rewrite (flags_grow_ident _ _ (before_cleanup_blocks k l)). exact Hd.
Qed.

(** Every block after a tick is a block of before the tick, its flag not
    lowered. *)
Lemma update_block_origin (k : Keys) (l : Level) (b' : Block) :
  In b' (blocks (update k l)) ->
  exists b, In b (blocks l) /\ ident b' = ident b /\
            (is_destroyed b = true -> is_destroyed b' = true).
Proof.
  intros H. rewrite update_unfold in H.
  destruct (check_termination_frame (cleanup (before_cleanup k l)))
    as (Hb & _).
  rewrite Hb in H.
  destruct (cleanup_frame (before_cleanup k l))
    as (_ & _ & _ & _ & _ & _ & _ & Hin).
  apply Hin in H.
  apply (flags_grow_In _ _ _ (before_cleanup_blocks k l) H).
Qed.

Lemma updates_distinct (ks : list Keys) :
  forall l : Level, distinct l -> distinct (updates ks l).
Proof.
  induction ks as [|k ks IH]; intros l Hd; rewrite ?updates_cons; [exact Hd|].
  apply IH, update_distinct, Hd.
Qed.

Lemma updates_block_origin (ks : list Keys) :
  forall (l : Level) (b' : Block),
    In b' (blocks (updates ks l)) ->
    exists b, In b (blocks l) /\ ident b' = ident b /\
              (is_destroyed b = true -> is_destroyed b' = true).
Proof.
  induction ks as [|k ks IH]; intros l b' H; rewrite ?updates_cons in H.
  - exists b'. auto.
  - destruct (IH _ _ H) as (b1 & H1 & E1 & F1).
    destruct (update_block_origin k l b1 H1) as (b & H0 & E0 & F0).
    exists b. split; [exact H0|].
    split; [rewrite E1; exact E0|].
    intros Hf. apply F1, F0, Hf.
Qed.

(** One tick either removes a flagged block or brings it nearer the head
    of the list. *)
Lemma update_progress (k : Keys) (l : Level) (j : nat) (b : Block) :
  distinct l ->
  nth_error (blocks l) j = Some b -> is_destroyed b = true ->
  ~ In (ident b) (map ident (blocks (update k l))) \/
  exists j' b', (j' < j)%nat /\
                nth_error (blocks (update k l)) j' = Some b' /\
                ident b' = ident b /\ is_destroyed b' = true.
Proof.
  intros Hd Hj Hf.
  destruct (flags_grow_nth _ _ j b (before_cleanup_blocks k l) Hj)
    as (b1 & Hj1 & Hid & Hflag).
  rewrite (update_blocks k l Hd).
  assert (Hnd : NoDup (map ident (blocks (before_cleanup k l))))
    by (rewrite (flags_grow_ident _ _ (before_cleanup_blocks k l)); exact Hd).
  destruct (sweep_progress _ _ j b1 (le_n _) Hnd Hj1 (Hflag Hf))
    as [Hgone|(j' & Hlt & Hnth)].
  - left. rewrite <- Hid. exact Hgone.
  - right. exists j', b1. auto.
Qed.

Lemma updates_gone (ks : list Keys) :
  forall (l : Level) (id : nat),
    ~ In id (map ident (blocks l)) ->
    ~ In id (map ident (blocks (updates ks l))).
Proof.
  intros l id Hn H. apply in_map_iff in H. destruct H as (b' & E & Hin).
  destruct (updates_block_origin ks l b' Hin) as (b & Hb & Eb & _).
  apply Hn. rewrite <- E, Eb. apply in_map, Hb.
Qed.

(** A flagged block at position [j] has left the list after [j + 1]
    ticks. *)
Lemma updates_progress (ks : list Keys) :
  forall (l : Level) (j : nat) (b : Block),
    distinct l ->
    nth_error (blocks l) j = Some b -> is_destroyed b = true ->
    (j < length ks)%nat ->
    ~ In (ident b) (map ident (blocks (updates ks l))).
Proof.
  induction ks as [|k ks IH]; intros l j b Hd Hj Hf Hlen;
    [cbn in Hlen; lia|].
  rewrite ?updates_cons.
  destruct (update_progress k l j b Hd Hj Hf)
    as [Hgone|(j' & b' & Hlt & Hnth & Hid & Hf')].
  - apply updates_gone, Hgone.
  - rewrite <- Hid.
    apply (IH (update k l) j' b'); auto using update_distinct.
    cbn in Hlen. lia.
Qed.

(* ------------------------------------------------------------------ *)
(** ** Horizontal resolution (adjust_on_x_collision) *)

(** C5, as worded, fails: a ball that overlaps the platform with both its
    edges inside the platform's span has its right edge snapped to the
    platform's left edge, where the wording asks for its left edge on the
    platform's right edge. *)
Lemma resolve_x_as_specified_fails :
  is_collided_with ball_within_platform platform_at_100 = true /\
  ~ resolve_x_as_specified ball_within_platform platform_at_100.
Proof.
  split; [reflexivity|].
  unfold resolve_x_as_specified, inside_span.
  intros (_ & Hleft & _).
  vm_compute in Hleft.
  assert (H : 85 = 165) by (apply Hleft; intros [_ Hn]; apply Hn; split; reflexivity).
  discriminate H.
Qed.

(** C5 (amended): the resolution tests the mover's right edge only.  If it
    lies strictly inside the obstacle's horizontal span, the mover's right
    edge is snapped to the obstacle's left edge, otherwise the mover's left
    edge is snapped to the obstacle's right edge; in both cases the X
    velocity is negated, and nothing else of the mover changes.  In
    Scenario B (velocity (2,-2), right edge inside the platform's span) the
    X velocity ends as -2 and the right edge on the platform's left edge. *)
Theorem adjust_on_x_collision_spec (m : MovableEntity) (e : Rect) :
  let m' := adjust_on_x_collision m e in
  (inside_span (right (rect m)) e -> right (rect m') = left e) /\
  (~ inside_span (right (rect m)) e -> left (rect m') = right e) /\
  vx (speed m') = (- vx (speed m))%Q /\
  vy (speed m') = vy (speed m) /\
  ry (rect m') = ry (rect m) /\
  rw (rect m') = rw (rect m) /\
  rh (rect m') = rh (rect m) /\
  (speed m = mkVec 2 (-2) -> inside_span (right (rect m)) e ->
   vx (speed m') = (-2)%Q /\ right (rect m') = left e).
Proof.
  cbv zeta.
  assert (Hin : inside_span (right (rect m)) e ->
                right (rect (adjust_on_x_collision m e)) = left e).
  { unfold inside_span, adjust_on_x_collision. intros [H1 H2].
    replace (right (rect m) >? left e) with true by (symmetry; lia).
    replace (right (rect m) <? right e) with true by (symmetry; lia).
    cbn. unfold right, left. cbn. lia. }
  split; [exact Hin|].
  split.
  { unfold inside_span, adjust_on_x_collision. intros Hn.
    destruct (right (rect m) >? left e) eqn:E1;
      destruct (right (rect m) <? right e) eqn:E2; cbn; try reflexivity.
    exfalso. apply Hn. lia. }
  split; [reflexivity|].
  split; [reflexivity|].
  split; [unfold adjust_on_x_collision; destruct (_ && _); reflexivity|].
  split; [unfold adjust_on_x_collision; destruct (_ && _); reflexivity|].
  split; [unfold adjust_on_x_collision; destruct (_ && _); reflexivity|].
  intros Hv Hi. split; [|apply Hin; exact Hi].
  destruct m as [r v]. cbn in Hv. subst v. reflexivity.
Qed.

Lemma adjust_on_x_collision_spec_witness :
  is_collided_with ball_scenario_B platform_at_100 = true /\
  vx (speed (adjust_on_x_collision ball_scenario_B platform_at_100)) = (-2)%Q /\
  right (rect (adjust_on_x_collision ball_scenario_B platform_at_100))
  = left platform_at_100.
Proof.
  split; [reflexivity|].
  apply (adjust_on_x_collision_spec ball_scenario_B platform_at_100).
  - reflexivity.
  - unfold inside_span; vm_compute; split; reflexivity.
Defined.

(* ------------------------------------------------------------------ *)
(** ** The anti-squeeze step of a tick *)

Lemma before_cleanup_unfold (k : Keys) (l : Level) :
  before_cleanup k l = platform_clamp (anti_squeeze (after_passes k l)).
Proof.
  unfold before_cleanup, process_collisions, after_passes. exact eq_refl.
Qed.

Lemma squeezing_iff (l : Level) :
  is_squeezing_on_y l && is_squeezing_on_x l = true <-> squeezed l.
Proof.
  unfold is_squeezing_on_y, is_squeezing_on_x, squeezed, outside_boundary.
  rewrite andb_true_iff, !orb_true_iff, !Z.ltb_lt, Z.gtb_ltb, Z.ltb_lt.
  intuition lia.
Qed.

(** After the anti-squeeze step nothing moves the ball any more, and the
    platform keeps its row. *)
Lemma update_after_passes (k : Keys) (l : Level) :
  rect (ball (update k l)) = rect (ball (anti_squeeze (after_passes k l))) /\
  ry (rect (platform (update k l))) = ry (rect (platform (after_passes k l))) /\
  rh (rect (platform (update k l))) = rh (rect (platform (after_passes k l))).
Proof.
  rewrite update_unfold, before_cleanup_unfold.
  generalize (after_passes k l) as m. intros m.
  destruct (check_termination_frame
              (cleanup (platform_clamp (anti_squeeze m))))
    as (_ & -> & -> & _).
  destruct (cleanup_frame (platform_clamp (anti_squeeze m)))
    as (-> & _ & -> & _).
  destruct (platform_clamp_frame (anti_squeeze m))
    as (_ & -> & _ & _ & -> & _ & ->).
  destruct (anti_squeeze_frame m) as (_ & -> & _).
  repeat split.
Qed.

(** C1, as worded, fails: with the ball beside the platform and pushed
    past the left wall, the tick leaves the ball under the platform, not
    above it. *)
Lemma squeeze_as_specified_fails :
  ~ squeeze_as_specified key_a_held level_squeezed.
Proof.
  unfold squeeze_as_specified. intros [Habove _].
  assert (H : crossed_into_platform (after_passes key_a_held level_squeezed)
              /\ outside_boundary (after_passes key_a_held level_squeezed)).
  { unfold crossed_into_platform, outside_boundary. vm_compute.
    repeat split; auto. }
  apply Habove in H. vm_compute in H. apply H. reflexivity.
Qed.

(** C1 (amended): in every tick, if after the X and Y passes the ball is
    horizontally outside the boundary and either its bottom edge is above
    the platform's top edge or its top edge is above the platform's bottom
    edge, the tick ends with the ball's top edge on the platform's bottom
    edge (the ball directly below the platform), its column unchanged;
    otherwise the step leaves the ball where the passes put it.  A ball
    whose vertical span has crossed into the platform's while it is outside
    the boundary always meets the condition. *)
Theorem anti_squeeze_tick (k : Keys) (l : Level) :
  let m := after_passes k l in
  let l' := update k l in
  (squeezed m ->
   top (rect (ball l')) = bottom (rect (platform l')) /\
   rx (rect (ball l')) = rx (rect (ball m))) /\
  (~ squeezed m -> rect (ball l') = rect (ball m)) /\
  (crossed_into_platform m /\ outside_boundary m -> squeezed m).
Proof.
  cbv zeta.
  destruct (update_after_passes k l) as (Hb & Hy & Hh).
  generalize dependent (update k l). intros l' Hb Hy Hh.
  generalize dependent (after_passes k l). intros m Hb Hy Hh.
  split; [|split].
  - intros Hs. apply squeezing_iff in Hs.
    unfold top, bottom. rewrite Hb, Hy, Hh.
    unfold anti_squeeze. rewrite Hs. split; reflexivity.
  - intros Hs. rewrite Hb. unfold anti_squeeze.
    destruct (is_squeezing_on_y m && is_squeezing_on_x m) eqn:E;
      [|reflexivity].
    apply squeezing_iff in E. contradiction.
  - unfold squeezed, crossed_into_platform. tauto.
Qed.

Lemma anti_squeeze_tick_witness :
  squeezed (after_passes key_a_held level_squeezed) /\
  top (rect (ball (update key_a_held level_squeezed))) =
  bottom (rect (platform (update key_a_held level_squeezed))).
Proof.
  assert (H : squeezed (after_passes key_a_held level_squeezed)).
  { unfold squeezed, outside_boundary. vm_compute. split; right; reflexivity. }
  split; [exact H|].
  apply (anti_squeeze_tick key_a_held level_squeezed). exact H.
Defined.

(* ------------------------------------------------------------------ *)
(** ** Priority of the X pass *)

Lemma x_blocks_miss (b : MovableEntity) (bs : list Block) :
  all_miss b bs -> x_blocks bs b = (bs, b).
Proof.
  induction 1 as [|p ps Hp _ IH]; cbn; [reflexivity|].
  rewrite Hp, IH. reflexivity.
Qed.





(* ------------------------------------------------------------------ *)
(** ** Block cleanup and scoring *)

(** C2: the cleanup loop removes from the list it is iterating over, so
    the block that follows a removed block is passed over.  Here the ball
    strikes [block_beside] on the X pass and [block_above] on the Y pass of
    one tick; both are flagged when the passes end, but the tick removes
    only the first, scores 100, and ends with a destroyed block still in
    the active set.  (The score itself stays 100 per removed block,
    [update_score].) *)
Theorem cleanup_passes_over_neighbour :
  blocks (before_cleanup no_keys level_corner) =
    [set_is_destroyed block_beside; set_is_destroyed block_above] /\
  blocks (update no_keys level_corner) = [set_is_destroyed block_above] /\
  score (state (update no_keys level_corner)) = 100 /\
  distinct level_corner.
Proof.
  split; [vm_compute; reflexivity|].
  split; [vm_compute; reflexivity|].
  split; [vm_compute; reflexivity|].
  unfold distinct. cbn. repeat constructor; cbn; intuition discriminate.
Qed.

(* ------------------------------------------------------------------ *)
(** ** Velocity through a tick *)

(** What the tick keeps of the state reached by the collision passes. *)
Lemma update_state_after_passes (k : Keys) (l : Level) :
  lifes (state (update k l)) = lifes (state (after_passes k l)) /\
  is_ball_released (state (update k l)) =
    is_ball_released (state (after_passes k l)) /\
  length (blocks (before_cleanup k l)) = length (blocks l) /\
  blocks (update k l) = blocks (cleanup (before_cleanup k l)) /\
  speed (ball (before_cleanup k l)) = speed (ball (after_passes k l)).
Proof.
  pose proof (flags_grow_length _ _ (before_cleanup_blocks k l)) as Hlen.
  rewrite update_unfold.
  destruct (check_termination_frame (cleanup (before_cleanup k l)))
    as (-> & _ & _ & _ & _ & -> & ->).
  destruct (cleanup_frame (before_cleanup k l))
    as (_ & _ & _ & -> & _ & -> & _).
  revert Hlen. rewrite before_cleanup_unfold.
  generalize (after_passes k l) as m. intros m Hlen.
  destruct (platform_clamp_frame (anti_squeeze m))
    as (_ & -> & _ & -> & _).
  destruct (anti_squeeze_frame m) as (_ & _ & _ & -> & -> & _).
  split_and; try reflexivity. exact Hlen.
Qed.

(** C6, as worded, fails: when the ball is lost past the bottom no block
    is destroyed, yet the tick takes the velocity from (2,2) to (0,0). *)
Lemma speed_kept_as_specified_fails :
  ~ speed_kept_as_specified no_keys level_ball_lost.
Proof.
  unfold speed_kept_as_specified, no_block_destroyed. intros H.
  assert (Hb : blocks (update no_keys level_ball_lost)
               = blocks level_ball_lost) by (vm_compute; reflexivity).
  destruct (H Hb) as [Hx _]. vm_compute in Hx. discriminate Hx.
Qed.

(** C6 (amended): for every tick in which no block is removed, no life is
    lost and the ball is not released, the absolute value of each
    component of the ball's velocity is unchanged: the reflections off
    platform, boundary and blocks only negate components. *)
Theorem speed_magnitude_kept (k : Keys) (l : Level) :
  length (blocks (update k l)) = length (blocks l) ->
  lifes (state (update k l)) = lifes (state l) ->
  is_ball_released (state (update k l)) = is_ball_released (state l) ->
  Qabs (vx (speed (ball (update k l)))) = Qabs (vx (speed (ball l))) /\
  Qabs (vy (speed (ball (update k l)))) = Qabs (vy (speed (ball l))).
Proof.
  intros Hlen Hlifes Hrel.
  destruct (update_state_after_passes k l) as (Hl & Hr & Hn & Hb & Hs).
  rewrite Hl in Hlifes. rewrite Hr in Hrel. clear Hl Hr.
  (* nothing was removed, so the cleanup changed nothing *)
  assert (Hc : cleanup (before_cleanup k l) = before_cleanup k l).
  { apply cleanup_same_length. rewrite <- Hb, Hlen, Hn. reflexivity. }
  assert (Hball : speed (ball (update k l)) = speed (ball (after_passes k l))).
  { rewrite update_unfold, Hc.
    destruct (check_termination_frame (before_cleanup k l))
      as (_ & _ & -> & _).
    exact Hs. }
  rewrite Hball. clear Hlen Hn Hb Hs Hc Hball.
  unfold after_passes in *.
  pose proof (process_key_presses_frame k l) as (_ & _ & _ & Hkl & _).
  pose proof (process_key_presses_released k l) as Hkr.
  pose proof (process_key_presses_speed k l) as Hks.
  revert Hlifes Hrel Hkl Hkr Hks.
  generalize (process_key_presses k l) as l1. intros l1.
  destruct (x_pass_spec l1) as (_ & Hxm & _ & _ & Hxs).
  pose proof (y_pass_frame (x_pass l1)) as (_ & _ & _ & _ & Hyl).
  pose proof (y_pass_spec (x_pass l1)) as Hy.
  revert Hxm Hxs Hyl Hy.
  generalize (x_pass l1) as l2. intros l2.
  generalize (y_pass l2) as m. intros m Hxm Hxs Hyl Hy Hlifes Hrel Hkl Hkr Hks.
  assert (Hnb : y_outcome l2 <> YBottomEdge).
  { intros E. rewrite E, Hxs in Hyl. lia. }
  destruct (Hy Hnb) as (_ & Hym & _ & _ & Hys).
  rewrite Hys, Hxs, Hkr in Hrel.
  assert (Hsame : speed (ball l1) = speed (ball l)).
  { rewrite Hks.
    destruct (key_ctrl k), (is_ball_released (state l));
      cbn in *; congruence. }
  destruct Hxm, Hym. rewrite <- Hsame. split; congruence.
Qed.

Lemma speed_magnitude_kept_witness :
  Qabs (vx (speed (ball (update no_keys level_free_flight)))) =
    Qabs (vx (speed (ball level_free_flight))) /\
  Qabs (vy (speed (ball (update no_keys level_free_flight)))) =
    Qabs (vy (speed (ball level_free_flight))).
Proof.
  apply (speed_magnitude_kept no_keys level_free_flight);
    vm_compute; reflexivity.
Defined.

(* ------------------------------------------------------------------ *)
(** ** The life-loss event *)

Lemma check_termination_game_over (l : Level) :
  lifes (state l) < 1 -> is_game_over (state (check_termination l)) = true.
Proof.
  intros H. unfold check_termination.
  replace (lifes (state l) <? 1) with true by (symmetry; lia). reflexivity.
Qed.

Lemma update_platform (k : Keys) (l : Level) :
  platform (update k l) =
  platform (platform_clamp (anti_squeeze (after_passes k l))).
Proof.
  rewrite update_unfold, before_cleanup_unfold.
  generalize (platform_clamp (anti_squeeze (after_passes k l))) as bc.
  intros bc.
  destruct (check_termination_frame (cleanup bc)) as (_ & -> & _).
  destruct (cleanup_frame bc) as (-> & _). reflexivity.
Qed.

(** A ball within the boundary is not touched by the anti-squeeze step. *)
Lemma anti_squeeze_inside (l : Level) :
  ~ outside_boundary l -> anti_squeeze l = l.
Proof.
  unfold outside_boundary, anti_squeeze, is_squeezing_on_x. intros H.
  replace (right (rect (ball l)) >? right (edges l)) with false
    by (symmetry; lia).
  replace (left (rect (ball l)) <? left (edges l)) with false
    by (symmetry; lia).
  rewrite andb_false_r. reflexivity.
Qed.

(** A platform within the boundary is not clamped. *)
Lemma platform_clamp_inside (l : Level) :
  left (edges l) <= left (rect (platform l)) ->
  right (rect (platform l)) <= right (edges l) ->
  platform_clamp l = l.
Proof.
  unfold platform_clamp. intros Hl Hr.
  replace (right (rect (platform l)) >? right (edges l)) with false
    by (symmetry; lia).
  replace (left (rect (platform l)) <? left (edges l)) with false
    by (symmetry; lia).
  reflexivity.
Qed.

Lemma ball_lost_outcome (k : Keys) (l : Level) :
  ball_lost k l -> y_outcome (x_pass (process_key_presses k l)) = YBottomEdge.
Proof.
  unfold ball_lost, y_outcome. cbv zeta. intros [Hc Hb]. rewrite Hc.
  replace (_ >? _) with true by (symmetry; lia). reflexivity.
Qed.

(** The ball as [reset_ball] leaves it. *)
Lemma tie_to_platform_spec (b p : MovableEntity) :
  bottom (rect (tie_to_platform b p)) = top (rect p) /\
  centerx (rect (tie_to_platform b p)) = centerx (rect p).
Proof.
  unfold tie_to_platform, bottom, top, centerx. cbn. split; lia.
Qed.

(** C4: the tick does lose the life and reset the ball, but it puts the
    ball on the platform before the platform clamp of the same tick moves
    the platform.  With the platform against the right wall and [d] held,
    the ball is centred on the platform at column 640 (centre 672); the
    clamp then takes the platform back to column 635 (centre 667), and the
    tick ends with the ball on the platform's top edge, 5 pixels off its
    centre. *)
Theorem life_loss_at_right_wall :
  ball_lost key_d_held level_right_wall /\
  centerx (rect (platform (after_passes key_d_held level_right_wall))) = 672 /\
  lifes (state (update key_d_held level_right_wall)) = 0 /\
  is_game_over (state (update key_d_held level_right_wall)) = true /\
  is_ball_released (state (update key_d_held level_right_wall)) = false /\
  speed (ball (update key_d_held level_right_wall)) = mkVec 0 0 /\
  bottom (rect (ball (update key_d_held level_right_wall))) =
    top (rect (platform (update key_d_held level_right_wall))) /\
  centerx (rect (ball (update key_d_held level_right_wall))) = 672 /\
  centerx (rect (platform (update key_d_held level_right_wall))) = 667 /\
  ~ life_loss_as_specified key_d_held level_right_wall.
Proof.
  assert (Hlost : ball_lost key_d_held level_right_wall).
  { unfold ball_lost. vm_compute. split; reflexivity. }
  split; [exact Hlost|].
  do 8 (split; [vm_compute; reflexivity|]).
  unfold life_loss_as_specified. intros H.
  destruct (H Hlost) as (_ & _ & _ & Hc & _).
  vm_compute in Hc. discriminate Hc.
Qed.

(** The life-loss event in general: for every tick whose Y pass finds the
    ball's bottom edge beyond the boundary's bottom edge (the ball not
    colliding with the platform), the Y pass puts the ball on the platform
    as it stands at that moment (bottom edge on the platform's top edge,
    horizontally centred, velocity (0,0)); at the end of the tick lives
    are one fewer, [is_ball_released] is false and the velocity is zero,
    and if lives was 1 then lives is 0 and [is_game_over] is true.  The
    ball is still on the platform's top, centred, at the end of the tick
    whenever neither the anti-squeeze step nor the platform clamp applies
    in that tick. *)
Lemma life_loss_tick (k : Keys) (l : Level) :
  ball_lost k l ->
  let m := after_passes k l in
  let l' := update k l in
  (bottom (rect (ball m)) = top (rect (platform m)) /\
   centerx (rect (ball m)) = centerx (rect (platform m)) /\
   speed (ball m) = mkVec 0 0) /\
  lifes (state l') = lifes (state l) - 1 /\
  is_ball_released (state l') = false /\
  (vx (speed (ball l')) == 0)%Q /\ (vy (speed (ball l')) == 0)%Q /\
  (lifes (state l) = 1 ->
   lifes (state l') = 0 /\ is_game_over (state l') = true) /\
  (~ outside_boundary m ->
   left (edges m) <= left (rect (platform m)) ->
   right (rect (platform m)) <= right (edges m) ->
   bottom (rect (ball l')) = top (rect (platform l')) /\
   centerx (rect (ball l')) = centerx (rect (platform l'))).
Proof.
  intros Hlost. cbv zeta.
  pose proof (ball_lost_outcome k l Hlost) as Hout.
  pose proof (y_pass_bottom _ Hout) as Hm.
  fold (after_passes k l) in Hm.
  (* the state the passes hand over *)
  assert (Hmid :
    (bottom (rect (ball (after_passes k l)))
       = top (rect (platform (after_passes k l))) /\
     centerx (rect (ball (after_passes k l)))
       = centerx (rect (platform (after_passes k l))) /\
     speed (ball (after_passes k l)) = mkVec 0 0) /\
    lifes (state (after_passes k l)) = lifes (state l) - 1 /\
    is_ball_released (state (after_passes k l)) = false).
  { rewrite Hm.
    destruct (x_pass_spec (process_key_presses k l)) as (_ & _ & _ & _ & Hs).
    destruct (process_key_presses_frame k l) as (_ & _ & _ & Hl & _).
    revert Hs Hl.
    generalize (x_pass (process_key_presses k l)) as l2.
    generalize (process_key_presses k l) as l1.
    intros l1 l2 Hs Hl. cbn.
    split; [|split; [rewrite Hs, Hl; reflexivity|reflexivity]].
    destruct (tie_to_platform_spec (advance_y (ball l2)) (platform l2)).
    split_and; [assumption|assumption|reflexivity]. }
  clear Hm Hout Hlost.
  destruct (update_state_after_passes k l) as (Hl & Hr & _ & _ & Hs).
  destruct (update_after_passes k l) as (Hrect & _).
  pose proof (update_platform k l) as Hplat.
  assert (Hrest :
    (vx (speed (ball (update k l))) == 0)%Q /\
    (vy (speed (ball (update k l))) == 0)%Q).
  { rewrite update_unfold.
    destruct (check_termination_frame (cleanup (before_cleanup k l)))
      as (_ & _ & -> & _).
    apply cleanup_rest; rewrite Hs;
      destruct Hmid as ((_ & _ & ->) & _); reflexivity. }
  assert (Hover : lifes (state l) = 1 ->
                  is_game_over (state (update k l)) = true).
  { intros H1. rewrite update_unfold. apply check_termination_game_over.
    destruct (cleanup_frame (before_cleanup k l)) as (_ & _ & _ & -> & _).
    rewrite before_cleanup_unfold.
    destruct (platform_clamp_frame (anti_squeeze (after_passes k l)))
      as (_ & _ & _ & -> & _).
    destruct (anti_squeeze_frame (after_passes k l))
      as (_ & _ & _ & -> & _).
    destruct Hmid as (_ & -> & _). lia. }
  revert Hmid Hl Hr Hrect Hplat Hrest Hover.
  generalize (update k l) as l'. generalize (after_passes k l) as m.
  intros m l' (Hpos & Hlifes & Hrel) Hl Hr Hrect Hplat Hrest Hover.
  split; [exact Hpos|].
  split; [rewrite Hl; exact Hlifes|].
  split; [rewrite Hr; exact Hrel|].
  split; [apply Hrest|]. split; [apply Hrest|].
  split.
  - intros H1. split; [rewrite Hl, Hlifes; lia|apply Hover, H1].
  - intros Hin Hleft Hright.
    rewrite (anti_squeeze_inside m Hin) in Hrect, Hplat.
    rewrite (platform_clamp_inside m Hleft Hright) in Hplat.
    unfold bottom, top, centerx in *. rewrite Hrect, Hplat.
    destruct Hpos as (Hb & Hc & _). split; assumption.
Qed.

(* ------------------------------------------------------------------ *)
(** ** The destroyed flag over a run of ticks *)

Lemma distinct_ident_eq (bs : list Block) (a b : Block) :
  NoDup (map ident bs) -> In a bs -> In b bs -> ident a = ident b -> a = b.
Proof.
  induction bs as [|c rest IH]; cbn; [tauto|].
  intros Hnd Ha Hb E. apply NoDup_cons_iff in Hnd. destruct Hnd as [Hc Hrest].
  destruct Ha as [<-|Ha], Hb as [<-|Hb].
  - reflexivity.
  - exfalso. apply Hc. rewrite E. apply in_map, Hb.
  - exfalso. apply Hc. rewrite <- E. apply in_map, Ha.
  - apply IH; assumption.
Qed.

(** C10: in a level whose blocks are distinct objects, a block whose
    destroyed flag is set keeps it set through any run of ticks (key
    processing, collision passes, ball reset, cleanup), for as long as it
    is in the active set; a flagged block that stands at position [j] of
    the list has left the active set after [j + 1] further ticks at the
    latest; and the score over the run grows by exactly 100 for each block
    that left the set, the late one included. *)
Theorem destroyed_flag_monotone (ks : list Keys) (l : Level) (j : nat)
    (b : Block) :
  distinct l ->
  nth_error (blocks l) j = Some b ->
  is_destroyed b = true ->
  (forall b', In b' (blocks (updates ks l)) -> ident b' = ident b ->
              is_destroyed b' = true) /\
  ((j < length ks)%nat ->
   ~ In (ident b) (map ident (blocks (updates ks l)))) /\
  score (state (updates ks l)) =
  score (state l)
  + 100 * (Z.of_nat (length (blocks l))
           - Z.of_nat (length (blocks (updates ks l)))).
Proof.
  intros Hd Hj Hf. split; [|split].
  - intros b' Hin Hid.
    destruct (updates_block_origin ks l b' Hin) as (b0 & H0 & E0 & F0).
    apply F0.
    assert (Eb : b0 = b).
    { apply (distinct_ident_eq (blocks l)); try assumption.
      - apply (nth_error_In _ _ Hj).
      - rewrite <- E0. exact Hid. }
    rewrite Eb. exact Hf.
  - intros Hlen. apply (updates_progress ks l j b Hd Hj Hf Hlen).
  - apply updates_score.
Qed.

Lemma destroyed_flag_monotone_witness :
  nth_error (blocks (update no_keys level_corner)) 0
    = Some (set_is_destroyed block_above) /\
  ~ In (ident (set_is_destroyed block_above))
       (map ident (blocks (updates [no_keys] (update no_keys level_corner)))) /\
  score (state (updates [no_keys] (update no_keys level_corner))) =
  score (state (update no_keys level_corner))
  + 100 * (Z.of_nat (length (blocks (update no_keys level_corner)))
           - Z.of_nat (length (blocks (updates [no_keys]
                                         (update no_keys level_corner))))).
Proof.
  assert (Hj : nth_error (blocks (update no_keys level_corner)) 0
               = Some (set_is_destroyed block_above))
    by (vm_compute; reflexivity).
  split; [exact Hj|].
  assert (Hd : distinct (update no_keys level_corner)).
  { unfold distinct. vm_compute. constructor; [intros []|constructor]. }
  destruct (destroyed_flag_monotone [no_keys] (update no_keys level_corner)
              0 (set_is_destroyed block_above) Hd Hj eq_refl)
    as (_ & Hgone & Hscore).
  split; [apply Hgone; vm_compute; reflexivity|exact Hscore].
Defined.

(* ------------------------------------------------------------------ *)
(** ** The frame loop after game over *)

(** Losing the last life ends the game in the same tick. *)
Lemma update_game_over (k : Keys) (l : Level) :
  lifes (state (update k l)) < 1 -> is_game_over (state (update k l)) = true.
Proof.
  rewrite update_unfold.
  generalize (cleanup (before_cleanup k l)) as c. intros c.
  destruct (check_termination_frame c) as (_ & _ & _ & _ & _ & -> & _).
  apply check_termination_game_over.
Qed.

(** The simulation step does not touch the level once the game is over. *)
Lemma simulate_game_over (k : Keys) (s : Loop) :
  is_game_over (state (level s)) = true -> simulate k s = s.
Proof.
  unfold simulate. intros ->. reflexivity.
Qed.

(** Events other than a reset leave the level alone and need no new
    level. *)
Lemma handle_events_no_reset (fuel : nat) (lm : LevelMaker)
    (es : list Event) :
  forall s : Loop,
    no_reset es ->
    exists s', handle_events fuel lm es s = Some s' /\ level s' = level s.
Proof.
  unfold no_reset.
  induction es as [|e es IH]; intros s Hn; cbn [handle_events].
  - exists s. split; reflexivity.
  - assert (He : exists s1, handle_event fuel lm e s = Some s1 /\
                            level s1 = level s).
    { destruct e as [|[]|]; cbn;
        try (eexists; split; reflexivity).
      exfalso. apply Hn. left. reflexivity. }
    destruct He as (s1 & -> & H1).
    destruct (IH s1) as (s' & Hs' & H').
    + intros Hin. apply Hn. right. exact Hin.
    + exists s'. split; [exact Hs'|]. rewrite H', H1. reflexivity.
Qed.

(** C7: once [is_game_over] is true the simulation step of a frame leaves
    the level as it is, so over any further frames of the loop (short of
    a reset, which replaces the level by a new one) the score, the lives
    and the block set stay what they were. *)
Theorem game_over_freezes (fuel : nat) (lm : LevelMaker)
    (inputs : list (list Event * Keys)) (s : Loop) :
  is_game_over (state (level s)) = true ->
  Forall (fun i => no_reset (fst i)) inputs ->
  (forall k, level (simulate k s) = level s) /\
  exists s', run_frames fuel lm inputs s = Some s' /\
             level s' = level s /\
             score (state (level s')) = score (state (level s)) /\
             lifes (state (level s')) = lifes (state (level s)) /\
             blocks (level s') = blocks (level s).
Proof.
  intros Hover Hin.
  split; [intros k; rewrite (simulate_game_over k s Hover); reflexivity|].
  assert (H : exists s', run_frames fuel lm inputs s = Some s' /\
                         level s' = level s).
  { revert s Hover.
    induction Hin as [|[es k] rest Hes _ IH]; intros s Hover;
      cbn [run_frames].
    - exists s. split; reflexivity.
    - destruct (running s); [|exists s; split; reflexivity].
      unfold frame.
      destruct (handle_events_no_reset fuel lm es s Hes) as (s1 & -> & H1).
      assert (Hover1 : is_game_over (state (level s1)) = true)
        by (rewrite H1; exact Hover).
      rewrite (simulate_game_over k s1 Hover1).
      destruct (IH s1 Hover1) as (s' & Hrun & H').
      exists s'. split; [exact Hrun|]. rewrite H', H1. reflexivity. }
  destruct H as (s' & Hrun & Hlevel).
  exists s'. rewrite Hlevel. repeat split. exact Hrun.
Qed.

Lemma game_over_freezes_witness :
  exists s',
    run_frames 0 level_maker_A
      [([KEYDOWN K_SPACE], key_a_held); ([OtherEvent], key_d_held)]
      loop_game_over = Some s' /\
    level s' = level loop_game_over.
Proof.
  destruct (game_over_freezes 0 level_maker_A
              [([KEYDOWN K_SPACE], key_a_held); ([OtherEvent], key_d_held)]
              loop_game_over) as (_ & s' & Hrun & Hlevel & _).
  - vm_compute. reflexivity.
  - repeat constructor; unfold no_reset; cbn; intuition discriminate.
  - exists s'. split; assumption.
Defined.

(* ------------------------------------------------------------------ *)
(** ** Construction of a level *)

(** With no rows asked for, the row loop does not run. *)
Lemma get_level_no_rows (fuel : nat) (lm : LevelMaker) :
  num_of_rows lm <= 0 ->
  exists l, get_level fuel lm = Some l /\ blocks l = [] /\
            lifes (state l) = 4.
Proof.
  intros H. unfold get_level.
  replace (Z.to_nat (num_of_rows lm)) with 0%nat by lia.
  cbn [place_rows]. eexists. split; [reflexivity|]. split; reflexivity.
Qed.

(** A row that has no room for a single block is empty. *)
Lemma place_rows_no_room (fuel : nat) (lm : LevelMaker) (rows : nat) :
  width (lm_edges lm)
    <= horizontal_margin lm + fst (block_size (images lm)) ->
  forall (y : Z) (n : nat), place_rows (S fuel) lm rows y n = Some [].
Proof.
  intros H. induction rows as [|rows IH]; intros y n; cbn [place_rows].
  - reflexivity.
  - cbn [place_row].
    replace (_ <? _) with false by (symmetry; lia).
    rewrite IH. reflexivity.
Qed.

Lemma Game_init_no_extent (num_of_columns num_rows : Z) :
  num_of_columns <> 0 ->
  Game_init (mkEdges 0 0) num_of_columns num_rows =
  Ok (mkLevelMaker (mkEdges 0 0) (mkImages (65, 20) (15, 15) (0, 20))
        0 0 num_rows).
Proof.
  intros H. unfold Game_init, true_div.
  replace (py_round (inject_Z (width (mkEdges 0 0)) * (3 # 100))) with 0
    by reflexivity.
  replace (py_round (inject_Z (height (mkEdges 0 0)) * (6 # 100))) with 0
    by reflexivity.
  replace (width (mkEdges 0 0) - 0 * 2 - 0 * num_of_columns) with 0
    by (cbn [width]; lia).
  replace (num_of_columns =? 0) with false by (symmetry; lia).
  destruct num_of_columns as [|p|p]; [contradiction| |]; reflexivity.
Qed.

(** C8, as worded, fails: asking for zero rows is accepted. *)
Lemma validation_as_specified_fails :
  ~ validation_as_specified (mkEdges 700 500) 10 0.
Proof.
  unfold validation_as_specified, malformed. intros H.
  destruct H as [err H]; [lia|].
  vm_compute in H. discriminate H.
Qed.

(** Python's [round] gives a negative integer exactly below minus a half
    (minus a half itself rounds to the even 0). *)
Lemma py_round_negative (q : Q) : py_round q < 0 <-> (q < - (1 # 2))%Q.
Proof.
  destruct q as [n d]. unfold py_round, Qlt. cbn [Qnum Qden Qopp].
  pose proof (Z.div_mod n (Z.pos d) ltac:(lia)) as Hdm.
  pose proof (Z.mod_pos_bound n (Z.pos d) ltac:(lia)) as Hr.
  assert (Hd : 0 < Z.pos d) by lia.
  remember (Z.pos d) as D eqn:ED. clear ED.
  remember (n / D) as f eqn:Ef. clear Ef.
  remember (n mod D) as r eqn:Er. clear Er.
  change (Z.opp 1) with (-1).
  (* the sign of the quotient decides the sign of [D * f] *)
  assert (Hneg : forall g, g <= -1 -> D * g <= - D) by (intros; nia).
  assert (Hpos : forall g, 0 <= g -> 0 <= D * g) by (intros; nia).
  assert (Hneg2 : forall g, g <= -2 -> D * g <= - 2 * D) by (intros; nia).
  assert (Hm1 : forall g, -1 <= g -> - D <= D * g) by (intros; nia).
  destruct (2 * r ?= D) eqn:E.
  - apply Z.compare_eq in E.
    destruct (Z.even f) eqn:Ev.
    + apply Z.even_spec in Ev. destruct Ev as [h Eh].
      split; intros H.
      * assert (f <= -2) by lia. specialize (Hneg2 f). lia.
      * destruct (Z_lt_le_dec f 0); [assumption|].
        specialize (Hpos f). lia.
    + assert (Ho : Z.odd f = true)
        by (rewrite <- Z.negb_even, Ev; reflexivity).
      apply Z.odd_spec in Ho. destruct Ho as [h Eh].
      split; intros H.
      * assert (f <= -2) by lia. specialize (Hneg2 f). lia.
      * destruct (Z_lt_le_dec (f + 1) 0); [assumption|].
        specialize (Hm1 f). lia.
  - change (2 * r < D) in E. split; intros H.
    + specialize (Hneg f). lia.
    + destruct (Z_lt_le_dec f 0); [assumption|]. specialize (Hpos f). lia.
  - change (2 * r > D) in E. split; intros H.
    + assert (f <= -2) by lia. specialize (Hneg2 f). lia.
    + destruct (Z_lt_le_dec (f + 1) 0); [assumption|].
      specialize (Hm1 f). lia.
Qed.

Lemma Game_init_no_width (h num_of_columns num_rows : Z) :
  num_of_columns <> 0 ->
  Game_init (mkEdges 0 h) num_of_columns num_rows =
  Ok (mkLevelMaker (mkEdges 0 h) (mkImages (65, 20) (15, 15) (0, 20))
        0 (py_round (inject_Z h * (6 # 100))%Q) num_rows).
Proof.
  intros H. unfold Game_init, true_div.
  replace (py_round (inject_Z (width (mkEdges 0 h)) * (3 # 100))) with 0
    by reflexivity.
  replace (width (mkEdges 0 h) - 0 * 2 - 0 * num_of_columns) with 0
    by (cbn [width]; lia).
  replace (num_of_columns =? 0) with false by (symmetry; lia).
  destruct num_of_columns as [|p|p]; [contradiction| |]; reflexivity.
Qed.

(** Construction never looks at the row count. *)
Lemma Game_init_rows (e : Edges) (c r r' : Z) (lm : LevelMaker) :
  Game_init e c r = Ok lm -> Game_init e c r' = Ok (set_rows lm r').
Proof.
  unfold Game_init.
  destruct (true_div _ _); [|discriminate].
  destruct (Surface _); [|discriminate].
  intros [= <-]. reflexivity.
Qed.

(** Construction looks at the height for the vertical margin only. *)
Lemma Game_init_flattened (w h c r : Z) (lm : LevelMaker) :
  Game_init (mkEdges w h) c r = Ok lm ->
  Game_init (mkEdges w 0) c r = Ok (flattened lm).
Proof.
  unfold Game_init. cbn [width height].
  destruct (true_div _ _); [|discriminate].
  destruct (Surface _); [|discriminate].
  intros [= <-]. reflexivity.
Qed.

(** The number of blocks in a row depends on the columns only, not on
    the row line nor on the identities handed out. *)
Lemma place_row_same_columns (lm lm' : LevelMaker) (fuel : nat) :
  same_columns lm lm' ->
  forall (x y y' : Z) (n n0 : nat),
    option_map (fun r => length (fst r)) (place_row fuel lm x y n) =
    option_map (fun r => length (fst r)) (place_row fuel lm' x y' n0).
Proof.
  intros (Hw & Hb & Hm & _).
  induction fuel as [|fuel IH]; intros x y y' n n0; cbn [place_row];
    [reflexivity|].
  rewrite <- Hw, <- Hb, <- Hm.
  destruct (_ <? _); [|reflexivity].
  specialize (IH (x + (fst (block_size (images lm)) + horizontal_margin lm))
                 y y' (S n) (S n0)).
  destruct (place_row fuel lm _ y (S n)) as [[bs n1]|];
    destruct (place_row fuel lm' _ y' (S n0)) as [[bs' n1']|];
    cbn in IH |- *; try discriminate; try reflexivity.
  injection IH as IH. rewrite IH. reflexivity.
Qed.

Lemma place_rows_same_columns (lm lm' : LevelMaker) (fuel : nat) :
  same_columns lm lm' ->
  forall (rows : nat) (y y' : Z) (n n0 : nat),
    option_map (@length Block) (place_rows fuel lm rows y n) =
    option_map (@length Block) (place_rows fuel lm' rows y' n0).
Proof.
  intros Hsame.
  induction rows as [|rows IH]; intros y y' n n0; cbn [place_rows];
    [reflexivity|].
  destruct Hsame as (Hw & Hb & Hm & Hr) eqn:Ekeep. clear Ekeep.
  pose proof (place_row_same_columns lm lm' fuel
                (conj Hw (conj Hb (conj Hm Hr)))
                (horizontal_margin lm) y y' n n0) as Hrow.
  rewrite <- Hm.
  destruct (place_row fuel lm _ y n) as [[row n1]|];
    destruct (place_row fuel lm' _ y' n0) as [[row' n1']|];
    cbn in Hrow; try discriminate; [|reflexivity].
  injection Hrow as Hrow.
  specialize (IH (y + vertical_margin lm) (y' + vertical_margin lm') n1 n1').
  destruct (place_rows fuel lm rows _ n1) as [more|];
    destruct (place_rows fuel lm' rows _ n1') as [more'|];
    cbn in IH |- *; try discriminate; try reflexivity.
  injection IH as IH. rewrite !length_app, Hrow, IH. reflexivity.
Qed.

Lemma block_count_same_columns (lm lm' : LevelMaker) (fuel : nat) :
  same_columns lm lm' ->
  snd (ball_size (images lm)) = snd (ball_size (images lm')) ->
  block_count fuel lm = block_count fuel lm'.
Proof.
  intros Hsame Hball. unfold block_count, get_level. cbv zeta.
  cbn [rect rh]. rewrite <- Hball.
  destruct Hsame as (Hw & Hb & Hm & Hr) eqn:Ekeep. clear Ekeep.
  rewrite <- Hr.
  match goal with
  | |- context [place_rows fuel lm ?r ?y ?n] =>
      pose proof (place_rows_same_columns lm lm' fuel
                    (conj Hw (conj Hb (conj Hm Hr))) r y y n n) as Hrows
  end.
  destruct (place_rows fuel lm _ _ 0%nat) as [bs|];
    destruct (place_rows fuel lm' _ _ 0%nat) as [bs'|];
    cbn in Hrows |- *; try discriminate; try reflexivity.
  injection Hrows as Hrows. rewrite Hrows. reflexivity.
Qed.

(** Every level the level maker makes starts with 4 lives. *)
Lemma get_level_lifes (fuel : nat) (lm : LevelMaker) (l : Level) :
  get_level fuel lm = Some l -> lifes (state l) = 4.
Proof.
  unfold get_level. cbv zeta.
  destruct (place_rows fuel lm _ _ 0%nat); [|discriminate].
  intros [= <-]. reflexivity.
Qed.

(** C8 (amended): construction validates nothing of its own.  For sizes
    and a column count that fit a C [int]: a column count of zero raises
    [ZeroDivisionError] at call time, from the division that derives the
    block width, and a derived block width below minus a half (it rounds
    to a negative width, as for 700x500 with -1 columns or for a width of
    -700) raises [pygame.error] when the block surface is made.  The row
    count and the height are never validated: wherever construction
    succeeds for some row count or height it succeeds for zero rows and
    for a zero height too; zero rows gives a level with no blocks, a zero
    height gives as many blocks as any other height (50 for 700x0 with 10
    columns and 5 rows).  A zero width, with a column count that is not
    zero, is accepted and gives a level with no blocks.  Lives are no
    input at all: every level starts with 4. *)
Theorem construction_unvalidated :
  (forall e num_rows,
      c_int (width e) -> c_int (height e) ->
      Game_init e 0 num_rows = Raise ZeroDivisionError) /\
  (forall e num_of_columns num_rows,
      c_int (width e) -> c_int (height e) -> c_int num_of_columns ->
      num_of_columns <> 0 ->
      (derived_width e num_of_columns < - (1 # 2))%Q ->
      Game_init e num_of_columns num_rows = Raise PygameError) /\
  (Game_init (mkEdges 700 500) (-1) 5 = Raise PygameError /\
   Game_init (mkEdges (-700) 500) 10 5 = Raise PygameError) /\
  (forall e num_of_columns num_rows lm,
      Game_init e num_of_columns num_rows = Ok lm ->
      Game_init e num_of_columns 0 = Ok (set_rows lm 0) /\
      forall fuel,
        exists l, get_level fuel (set_rows lm 0) = Some l /\
                  blocks l = [] /\ lifes (state l) = 4) /\
  (forall w h num_of_columns num_rows lm,
      Game_init (mkEdges w h) num_of_columns num_rows = Ok lm ->
      Game_init (mkEdges w 0) num_of_columns num_rows = Ok (flattened lm) /\
      forall fuel, block_count fuel (flattened lm) = block_count fuel lm) /\
  (exists lm, Game_init (mkEdges 700 0) 10 5 = Ok lm /\
              block_count 11 lm = Some 50%nat) /\
  (forall h num_of_columns num_rows fuel,
      c_int h -> num_of_columns <> 0 ->
      exists lm l,
        Game_init (mkEdges 0 h) num_of_columns num_rows = Ok lm /\
        get_level (S fuel) lm = Some l /\ blocks l = [] /\
        lifes (state l) = 4) /\
  (forall fuel lm l, get_level fuel lm = Some l -> lifes (state l) = 4).
Proof.
  split; [intros e num_rows _ _; reflexivity|].
  split.
  { intros e c r _ _ _ Hc Hq.
    apply (py_round_negative (derived_width e c)) in Hq.
    unfold Game_init, true_div, Surface.
    fold (derived_margin e).
    replace (c =? 0) with false by (symmetry; lia).
    fold (derived_width e c). cbn [fst snd].
    replace (py_round (derived_width e c) <? 0) with true
      by (symmetry; lia).
    reflexivity. }
  split; [split; vm_compute; reflexivity|].
  split.
  { intros e c r lm H. split; [apply (Game_init_rows e c r 0 lm H)|].
    intros fuel. apply get_level_no_rows. cbn. lia. }
  split.
  { intros w h c r lm H. split; [apply (Game_init_flattened w h c r lm H)|].
    intros fuel. apply block_count_same_columns.
    - unfold same_columns, flattened. cbn. repeat split.
    - reflexivity. }
  split.
  { eexists. split; [vm_compute; reflexivity|]. vm_compute. reflexivity. }
  split.
  { intros h c r fuel _ Hc. eexists. eexists.
    split; [apply (Game_init_no_width h c r Hc)|].
    unfold get_level.
    rewrite place_rows_no_room by (cbn; lia).
    split; [reflexivity|]. split; reflexivity. }
  apply get_level_lifes.
Qed.

Lemma construction_unvalidated_witness :
  Game_init (mkEdges 700 500) 10 0 = Ok (set_rows level_maker_A 0) /\
  exists l, get_level 0 (set_rows level_maker_A 0) = Some l /\
            blocks l = [] /\ lifes (state l) = 4.
Proof.
  destruct construction_unvalidated as (_ & _ & _ & Hrows & _).
  destruct (Hrows (mkEdges 700 500) 10 5 level_maker_A) as [H0 Hl].
  - vm_compute. reflexivity.
  - split; [exact H0|]. apply Hl.
Defined.

(** *** The number of blocks *)

Section RowCount.

Variable lm : LevelMaker.

Let W := width (lm_edges lm).
Let bw := fst (block_size (images lm)).
Let step := fst (block_size (images lm)) + horizontal_margin lm.

Hypothesis step_pos : 0 < step.

(** The blocks of a row that starts at column [x]. *)
Let row_count (x : Z) : Z := Z.max 0 ((W - bw - x + step - 1) / step).

Lemma row_count_next (x : Z) :
  x + bw < W ->
  row_count x = row_count (x + step) + 1 /\ 0 <= row_count (x + step).
Proof.
  unfold row_count. intros H.
  replace (W - bw - (x + step) + step - 1) with (W - bw - x - 1) by lia.
  replace (W - bw - x + step - 1) with (W - bw - x - 1 + 1 * step) by lia.
  rewrite Z.div_add by lia.
  assert (0 <= (W - bw - x - 1) / step) by (apply Z.div_pos; lia).
  lia.
Qed.

Lemma row_count_done (x : Z) : W <= x + bw -> row_count x = 0.
Proof.
  unfold row_count. intros H.
  assert ((W - bw - x + step - 1) / step <= 0); [|lia].
  assert ((W - bw - x + step - 1) / step < 1); [|lia].
  apply Z.div_lt_upper_bound; lia.
Qed.

(** With a positive step the row loop ends, and its fuel is enough as soon
    as it exceeds the number of blocks that fit. *)
Lemma place_row_count (fuel : nat) :
  forall (x y : Z) (n : nat),
    row_count x < Z.of_nat fuel ->
    exists bs n',
      place_row fuel lm x y n = Some (bs, n') /\
      Z.of_nat (length bs) = row_count x /\
      Forall (fun b => is_destroyed b = false) bs.
Proof.
  induction fuel as [|fuel IH]; intros x y n Hfuel.
  - unfold row_count in Hfuel. lia.
  - cbn [place_row].
    change (fst (block_size (images lm)) + horizontal_margin lm) with step.
    change (fst (block_size (images lm))) with bw.
    change (width (lm_edges lm)) with W.
    destruct (x + bw <? W) eqn:E.
    + destruct (row_count_next x) as [Hc Hpos]; [lia|].
      destruct (IH (x + step) y (S n)) as (bs & n' & Hrow & Hlen & Hall);
        [lia|].
      rewrite Hrow. eexists. eexists.
      split; [reflexivity|]. split.
      * cbn [length]. lia.
      * constructor; [reflexivity|exact Hall].
    + exists [], n. split; [reflexivity|].
      split; [rewrite row_count_done by lia; reflexivity|constructor].
Qed.

Lemma row_count_first : row_count (horizontal_margin lm) = columns_per_row lm.
Proof.
  unfold row_count, columns_per_row. fold W. fold step.
  replace (W - bw - horizontal_margin lm + step - 1) with (W - 1)
    by (unfold step, bw; lia).
  reflexivity.
Qed.

Lemma place_rows_count (fuel : nat) (rows : nat) :
  columns_per_row lm < Z.of_nat fuel ->
  forall (y : Z) (n : nat),
    exists bs,
      place_rows fuel lm rows y n = Some bs /\
      Z.of_nat (length bs) = columns_per_row lm * Z.of_nat rows /\
      Forall (fun b => is_destroyed b = false) bs.
Proof.
  intros Hfuel. rewrite <- row_count_first in Hfuel.
  induction rows as [|rows IH]; intros y n; cbn [place_rows].
  - exists []. split; [reflexivity|]. split; [cbn; lia|constructor].
  - destruct (place_row_count fuel (horizontal_margin lm) y n Hfuel)
      as (row & n' & -> & Hlen & Hall).
    destruct (IH (y + vertical_margin lm) n') as (more & -> & Hlen' & Hall').
    exists (row ++ more). split; [reflexivity|]. split.
    + rewrite length_app, Nat2Z.inj_add, Hlen, Hlen', row_count_first. lia.
    + apply Forall_app. split; assumption.
Qed.

(** The level maker, for any layout whose step is positive: rows times
    [columns_per_row] blocks, none destroyed, 4 lives. *)
Lemma get_level_block_count (fuel : nat) :
  columns_per_row lm < Z.of_nat fuel ->
  exists l,
    get_level fuel lm = Some l /\
    Z.of_nat (length (blocks l))
    = columns_per_row lm * Z.max 0 (num_of_rows lm) /\
    Forall (fun b => is_destroyed b = false) (blocks l) /\
    lifes (state l) = 4.
Proof.
  intros Hfuel. unfold get_level. cbv zeta.
  match goal with
  | |- context [place_rows ?f ?m ?r ?y ?n] =>
      destruct (place_rows_count f r Hfuel y n) as (bs & Hrows & Hlen & Hall)
  end.
  rewrite Hrows. eexists. split; [reflexivity|].
  split; [|split; [exact Hall|reflexivity]].
  cbn [Level_init reset_ball with_state with_ball blocks].
  rewrite Hlen. lia.
Qed.

End RowCount.

(** *** Identities of the blocks *)

Lemma place_row_ids (lm : LevelMaker) (fuel : nat) :
  forall (x y : Z) (n : nat) (bs : list Block) (n' : nat),
    place_row fuel lm x y n = Some (bs, n') ->
    (n <= n')%nat /\ map ident bs = seq n (n' - n).
Proof.
  induction fuel as [|fuel IH]; intros x y n bs n'; cbn [place_row];
    [discriminate|].
  destruct (_ <? _).
  - destruct (place_row fuel lm _ y (S n)) as [[bs1 n1]|] eqn:E;
      [|discriminate].
    intros [= <- <-]. destruct (IH _ _ _ _ _ E) as [Hle Hids].
    split; [lia|]. cbn [map ident].
    replace (n1 - n)%nat with (S (n1 - S n)) by lia.
    cbn [seq]. rewrite Hids. reflexivity.
  - intros [= <- <-]. split; [lia|]. rewrite Nat.sub_diag. reflexivity.
Qed.

Lemma place_rows_ids (lm : LevelMaker) (fuel : nat) (rows : nat) :
  forall (y : Z) (n : nat) (bs : list Block),
    place_rows fuel lm rows y n = Some bs ->
    exists n', (n <= n')%nat /\ map ident bs = seq n (n' - n).
Proof.
  induction rows as [|rows IH]; intros y n bs; cbn [place_rows].
  - intros [= <-]. exists n. split; [lia|]. rewrite Nat.sub_diag. reflexivity.
  - destruct (place_row fuel lm _ y n) as [[row n1]|] eqn:E; [|discriminate].
    destruct (place_rows fuel lm rows _ n1) as [more|] eqn:E'; [|discriminate].
    intros [= <-].
    destruct (place_row_ids lm fuel _ _ _ _ _ E) as [Hle Hrow].
    destruct (IH _ _ _ E') as (n2 & Hle' & Hmore).
    exists n2. split; [lia|].
    rewrite map_app, Hrow, Hmore.
    replace (n2 - n)%nat with ((n1 - n) + (n2 - n1))%nat by lia.
    rewrite seq_app. repeat f_equal. lia.
Qed.

(** The blocks of a level made by the level maker are distinct objects. *)
Lemma get_level_distinct (fuel : nat) (lm : LevelMaker) (l : Level) :
  get_level fuel lm = Some l -> distinct l.
Proof.
  unfold get_level. cbv zeta.
  destruct (place_rows fuel lm _ _ 0%nat) as [bs|] eqn:E; [|discriminate].
  intros [= <-]. unfold distinct.
  cbn [Level_init reset_ball with_state with_ball blocks].
  destruct (place_rows_ids lm fuel _ _ _ _ E) as (n' & _ & ->).
  apply seq_NoDup.
Qed.

(** *** Scenario A *)

(** C9, as worded, fails: the specification's formula gives 9 blocks to
    a row, 45 in all, and the level has 50. *)
Lemma scenario_A_count_as_specified_fails :
  Game_init (mkEdges 700 500) 10 5 = Ok level_maker_A /\
  exists l, get_level 11 level_maker_A = Some l /\
            Z.of_nat (length (blocks l))
            <> columns_fit_per_row_as_specified level_maker_A * 5.
Proof.
  split; [vm_compute; reflexivity|].
  eexists. split; [vm_compute; reflexivity|].
  vm_compute. discriminate.
Qed.

(** C9 (amended): with boundary 700x500, 10 columns and 5 rows the derived
    margin is 21 and the derived block width 45, and the level maker
    produces exactly [columns_per_row * 5 = 50] blocks, where
    [columns_per_row = floor((700 - 1) / (block_width + margin)) = 10]
    counts the blocks whose right edge stays left of the boundary's
    width; every block starts with its destroyed flag false, and the
    level starts with 4 lives.  Fuel beyond 11 iterations per row changes
    nothing. *)
Theorem scenario_A_block_count (extra : nat) :
  Game_init (mkEdges 700 500) 10 5 = Ok level_maker_A /\
  columns_per_row level_maker_A = 10 /\
  exists l, get_level (11 + extra) level_maker_A = Some l /\
            Z.of_nat (length (blocks l)) = columns_per_row level_maker_A * 5 /\
            length (blocks l) = 50%nat /\
            forallb (fun b => negb (is_destroyed b)) (blocks l) = true /\
            lifes (state l) = 4.
Proof.
  split; [vm_compute; reflexivity|].
  split; [vm_compute; reflexivity|].
  eexists. split; [vm_compute; reflexivity|].
  split; [vm_compute; reflexivity|].
  split; [vm_compute; reflexivity|].
  split; vm_compute; reflexivity.
Qed.

(* ------------------------------------------------------------------ *)
(** ** Further properties of the level *)

(** *** Release and launch velocity *)

(** Releasing the ball twice is releasing it once. *)
Theorem release_ball_idempotent (l : Level) :
  release_ball (release_ball l) = release_ball l /\
  is_ball_released (state (release_ball l)) = true /\
  (is_ball_released (state l) = true -> release_ball l = l).
Proof.
  unfold release_ball.
  destruct (is_ball_released (state l)) eqn:E.
  - rewrite E. repeat split; auto.
  - cbn. repeat split. discriminate.
Qed.

Lemma release_ball_idempotent_witness :
  release_ball (release_ball level_corner) = level_corner.
Proof.
  destruct (release_ball_idempotent level_corner) as (H1 & _ & H3).
  rewrite H1. apply H3. reflexivity.
Defined.

Lemma y_pass_flags (l : Level) :
  is_game_over (state (y_pass l)) = is_game_over (state l) /\
  is_player_won (state (y_pass l)) = is_player_won (state l) /\
  ball_released_speed (state (y_pass l)) = ball_released_speed (state l).
Proof.
  destruct (y_outcome l) eqn:E;
    try (destruct (y_pass_spec l) as (_ & _ & _ & _ & ->);
         [congruence|repeat split]).
  rewrite (y_pass_bottom l E). repeat split.
Qed.

Lemma cleanup_loop_released_speed (fuel : nat) :
  forall (i : nat) (l : Level),
    ball_released_speed (state (cleanup_loop fuel i l))
    = ball_released_speed (state l).
Proof.
  induction fuel as [|fuel IH]; intros i l; cbn [cleanup_loop];
    [reflexivity|].
  destruct (nth_error (blocks l) i) as [b|]; [|reflexivity].
  destruct (is_destroyed b); rewrite IH; reflexivity.
Qed.

Lemma check_termination_flags (l : Level) :
  ball_released_speed (state (check_termination l))
    = ball_released_speed (state l) /\
  is_game_over (state (check_termination l))
    = is_game_over (state l) || (lifes (state l) <? 1) /\
  is_player_won (state (check_termination l))
    = is_player_won (state l)
      || ((1 <=? lifes (state l)) && (length (blocks l) =? 0)%nat).
Proof.
  destruct l as [bs p b e s]. unfold check_termination. cbn.
  destruct (lifes s <? 1) eqn:E.
  - replace (1 <=? lifes s) with false by (symmetry; lia). cbn.
    rewrite orb_true_r, orb_false_r. repeat split.
  - replace (1 <=? lifes s) with true by (symmetry; lia).
    destruct bs; cbn; rewrite ?orb_true_r, ?orb_false_r; repeat split.
Qed.

(** What a tick never touches: the boundary and the launch velocity. *)
Lemma update_constants (k : Keys) (l : Level) :
  edges (update k l) = edges l /\
  ball_released_speed (state (update k l)) = ball_released_speed (state l).
Proof.
  rewrite update_unfold, before_cleanup_unfold. unfold after_passes.
  destruct (process_key_presses_frame k l) as (_ & He & _ & _ & _ & _ & Hs).
  revert He Hs. generalize (process_key_presses k l) as l1. intros l1 He Hs.
  destruct (x_pass_spec l1) as (_ & _ & _ & Hxe & Hxs).
  revert Hxe Hxs. generalize (x_pass l1) as l2. intros l2 Hxe Hxs.
  destruct (y_pass_frame l2) as (_ & _ & Hye & _).
  destruct (y_pass_flags l2) as (_ & _ & Hys).
  revert Hye Hys. generalize (y_pass l2) as m. intros m Hye Hys.
  destruct (anti_squeeze_frame m) as (_ & _ & Hae & Has & _).
  revert Hae Has. generalize (anti_squeeze m) as a. intros a Hae Has.
  destruct (platform_clamp_frame a) as (_ & _ & Hce & Hcs & _).
  revert Hce Hcs. generalize (platform_clamp a) as c. intros c Hce Hcs.
  destruct (check_termination_frame (cleanup c)) as (_ & _ & _ & -> & _).
  destruct (check_termination_flags (cleanup c)) as (-> & _).
  destruct (cleanup_frame c) as (_ & -> & _).
  unfold cleanup. rewrite cleanup_loop_released_speed.
  split; congruence.
Qed.

Lemma updates_constants (ks : list Keys) :
  forall l : Level,
    edges (updates ks l) = edges l /\
    ball_released_speed (state (updates ks l))
    = ball_released_speed (state l).
Proof.
  induction ks as [|k ks IH]; intros l.
  - change (updates [] l) with l. split; reflexivity.
  - rewrite updates_cons.
    destruct (IH (update k l)) as [-> ->]. apply update_constants.
Qed.

(** The launch velocity is the velocity the ball was constructed with:
    [Level.__init__] stores it, [reset_ball] zeroes the ball's own, no tick
    changes the stored one, and every release restores it. *)
Theorem launch_velocity_round_trip (ks : list Keys) (lifes0 : Z)
    (bs : list Block) (p b : MovableEntity) (w h t : Z) :
  let l := updates ks (Level_init lifes0 bs p b w h t) in
  ball_released_speed (state l) = speed b /\
  speed (ball (release_ball l)) =
  (if is_ball_released (state l) then speed (ball l) else speed b) /\
  speed (ball (release_ball (Level_init lifes0 bs p b w h t))) = speed b.
Proof.
  cbv zeta.
  destruct (updates_constants ks (Level_init lifes0 bs p b w h t))
    as (_ & Hs).
  change (ball_released_speed (state (Level_init lifes0 bs p b w h t)))
    with (speed b) in Hs.
  revert Hs. generalize (updates ks (Level_init lifes0 bs p b w h t)) as l.
  intros l Hs. split; [exact Hs|]. split; [|reflexivity].
  unfold release_ball. destruct (is_ball_released (state l)); [reflexivity|].
  exact Hs.
Qed.

(** *** The two resolutions *)

Lemma to_int_inject_Z (z : Z) : to_int (inject_Z z) = z.
Proof. unfold to_int, inject_Z. cbn [Qnum Qden]. apply Z.quot_1_r. Qed.

(** With an integral vertical velocity the Y resolution is an exact
    roll-back: the mover is back where it stood before the displacement,
    its vertical velocity negated. *)
Theorem adjust_on_y_collision_rolls_back (m : MovableEntity) (v : Z) :
  vy (speed m) = inject_Z v ->
  rect (adjust_on_y_collision (advance_y m)) = rect m /\
  speed (adjust_on_y_collision (advance_y m))
  = mkVec (vx (speed m)) (inject_Z (- v)).
Proof.
  destruct m as [[x y w h] [sx sy]]. cbn. intros ->.
  unfold adjust_on_y_collision, advance_y, set_y. cbn.
  split; [|reflexivity]. f_equal.
  unfold to_int, inject_Z, Qminus, Qplus, Qopp. cbn [Qnum Qden].
  rewrite !Z.mul_1_r. change (Z.pos (1 * 1)) with 1.
  rewrite !Z.quot_1_r. lia.
Qed.

Lemma adjust_on_y_collision_rolls_back_witness :
  rect (adjust_on_y_collision (advance_y (ball level_corner)))
  = rect (ball level_corner).
Proof.
  apply (adjust_on_y_collision_rolls_back (ball level_corner) (-2)).
  reflexivity.
Defined.

(** The X resolution always separates: whatever branch it takes, the mover
    no longer collides with the obstacle (for widths that are not
    negative). *)
Theorem adjust_on_x_collision_separates (m : MovableEntity) (e : Rect) :
  0 <= rw (rect m) -> 0 <= rw e ->
  is_collided_with (adjust_on_x_collision m e) e = false.
Proof.
  intros Hm He. unfold is_collided_with, colliderect, adjust_on_x_collision.
  destruct m as [[x y w h] s], e as [ex ey ew eh].
  cbn in Hm, He.
  unfold set_right, set_left, set_x, right, left. cbn [rect rx ry rw rh].
  destruct ((x + w >? ex) && (x + w <? ex + ew)); cbn [rect rx ry rw rh];
    destruct ((w =? 0) || (h =? 0) || (ew =? 0) || (eh =? 0)); try reflexivity.
  - replace (Z.max (ex - w) (ex - w + w) >? Z.min ex (ex + ew)) with false
      by (symmetry; lia).
    rewrite andb_false_r. reflexivity.
  - replace (Z.min (ex + ew) (ex + ew + w) <? Z.max ex (ex + ew)) with false
      by (symmetry; lia).
    reflexivity.
Qed.

Lemma adjust_on_x_collision_separates_witness :
  is_collided_with ball_within_platform platform_at_100 = true /\
  is_collided_with
    (adjust_on_x_collision ball_within_platform platform_at_100)
    platform_at_100 = false.
Proof.
  split; [reflexivity|].
  apply adjust_on_x_collision_separates; vm_compute; discriminate.
Defined.

(** *** The platform *)

Lemma platform_kept_refl (p : MovableEntity) : platform_kept p p.
Proof. split; reflexivity. Qed.

Lemma platform_kept_trans (a b c : MovableEntity) :
  platform_kept a b -> platform_kept b c -> platform_kept a c.
Proof. intros [] []; split; congruence. Qed.

Lemma Qabs_Qabs_eq (q : Q) : Qabs (Qabs q) = Qabs q.
Proof.
  destruct q as [n d]. unfold Qabs. cbn [Qnum Qden].
  rewrite Z.abs_idemp. reflexivity.
Qed.

Lemma to_int_zero : to_int 0 = 0.
Proof. reflexivity. Qed.

Lemma key_update_platform (l : Level) (q : Q) :
  Qabs q = Qabs (vx (speed (platform l))) ->
  platform_kept (platform l)
    (platform (key_update (set_platform_speed_x l q))).
Proof.
  intros Hq. unfold key_update. cbn.
  destruct (is_ball_released (state l)); cbn;
    split; cbn; try reflexivity; try exact Hq;
    rewrite to_int_zero; lia.
Qed.

Lemma process_key_presses_platform (k : Keys) (l : Level) :
  platform_kept (platform l) (platform (process_key_presses k l)).
Proof.
  unfold process_key_presses.
  set (l1 := if key_ctrl k then release_ball l else l).
  assert (H1 : platform l1 = platform l).
  { subst l1. unfold release_ball.
    destruct (key_ctrl k), (is_ball_released (state l)); reflexivity. }
  clearbody l1. rewrite <- H1. clear H1.
  set (l2 := if key_a k then _ else l1).
  assert (H2 : platform_kept (platform l1) (platform l2)).
  { subst l2. destruct (key_a k); [|apply platform_kept_refl].
    apply key_update_platform. rewrite Qabs_opp_eq. apply Qabs_Qabs_eq. }
  clearbody l2. apply (platform_kept_trans _ _ _ H2).
  destruct (key_d k); [|apply platform_kept_refl].
  apply key_update_platform, Qabs_Qabs_eq.
Qed.

Lemma platform_clamp_kept (l : Level) :
  platform_kept (platform l) (platform (platform_clamp l)).
Proof.
  unfold platform_clamp.
  destruct (_ >? _); [|destruct (_ <? _)];
    split; cbn; try reflexivity; apply Qabs_opp_eq.
Qed.

(** The clamp brings a platform that is no wider than the boundary back
    inside it. *)
Lemma platform_clamp_inside_walls (l : Level) :
  rw (rect (platform l)) <= rw (edges l) ->
  inside_walls (rect (platform (platform_clamp l))) (edges l).
Proof.
  unfold platform_clamp, inside_walls, left, right. intros H.
  destruct (rx (rect (platform l)) + rw (rect (platform l))
            >? rx (edges l) + rw (edges l)) eqn:E1;
    [cbn; lia|].
  destruct (rx (rect (platform l)) <? rx (edges l)) eqn:E2; cbn; lia.
Qed.

Lemma after_passes_platform (k : Keys) (l : Level) :
  platform (after_passes k l) = platform (process_key_presses k l) /\
  edges (after_passes k l) = edges l.
Proof.
  unfold after_passes.
  destruct (process_key_presses_frame k l) as (_ & He & _).
  revert He. generalize (process_key_presses k l) as l1. intros l1 He.
  destruct (x_pass_spec l1) as (_ & _ & Hp & Hxe & _).
  revert Hp Hxe. generalize (x_pass l1) as l2. intros l2 Hp Hxe.
  destruct (y_pass_frame l2) as (_ & -> & -> & _).
  split; congruence.
Qed.

(** The platform moves sideways only: over any run of ticks its row and
    size stay what they were, its vertical speed is never touched, and its
    horizontal speed only ever changes sign. *)
Theorem platform_moves_sideways_only (ks : list Keys) (l : Level) :
  platform_kept (platform l) (platform (updates ks l)).
Proof.
  revert l. induction ks as [|k ks IH]; intros l.
  - change (updates [] l) with l. apply platform_kept_refl.
  - rewrite updates_cons.
    apply (platform_kept_trans _ (platform (update k l))); [|apply IH].
    rewrite update_platform.
    destruct (after_passes_platform k l) as (Hp & _).
    pose proof (process_key_presses_platform k l) as Hk.
    rewrite <- Hp in Hk. revert Hk.
    generalize (after_passes k l) as m. intros m Hk.
    apply (platform_kept_trans _ _ _ Hk).
    pose proof (platform_clamp_kept (anti_squeeze m)) as Hc.
    destruct (anti_squeeze_frame m) as (_ & Ha & _).
    rewrite Ha in Hc. exact Hc.
Qed.

(** After every tick a platform no wider than the boundary lies within
    it, side to side, wherever the keys took it during the tick. *)
Theorem platform_inside_walls (k : Keys) (l : Level) :
  rw (rect (platform l)) <= rw (edges l) ->
  inside_walls (rect (platform (update k l))) (edges (update k l)).
Proof.
  intros Hw.
  destruct (update_constants k l) as (-> & _).
  rewrite update_platform.
  destruct (after_passes_platform k l) as (Hp & He).
  pose proof (process_key_presses_platform k l) as [_ Hrw _ _ _].
  rewrite <- Hp in Hrw. revert Hrw He.
  generalize (after_passes k l) as m. intros m Hrw He.
  destruct (anti_squeeze_frame m) as (_ & Hap & Hae & _).
  pose proof (platform_clamp_inside_walls (anti_squeeze m)) as H.
  rewrite Hap, Hae, He in H. apply H. rewrite Hrw. exact Hw.
Qed.

Lemma platform_inside_walls_witness :
  inside_walls (rect (platform (update key_d_held level_right_wall)))
    (edges (update key_d_held level_right_wall)).
Proof.
  apply platform_inside_walls. vm_compute. discriminate.
Defined.

Lemma to_int_opp (q : Q) : to_int (- q) = - to_int q.
Proof.
  unfold to_int, Qopp. cbn [Qnum Qden]. apply Z.quot_opp_l. lia.
Qed.

Lemma key_update_platform_eq (l : Level) (q : Q) :
  platform (key_update (set_platform_speed_x l q)) =
  mkMovable (move_ip (rect (platform l)) q 0) (set_vx (speed (platform l)) q).
Proof.
  unfold key_update. cbn. destruct (is_ball_released (state l)); reflexivity.
Qed.

(** Holding [a] and [d] together leaves the platform where it was: it
    steps left, then right by the same amount, and ends with its speed
    pointing right. *)
Theorem both_keys_cancel (k : Keys) (l : Level) :
  key_a k = true -> key_d k = true ->
  rect (platform (process_key_presses k l)) = rect (platform l) /\
  vx (speed (platform (process_key_presses k l)))
  = Qabs (vx (speed (platform l))) /\
  vy (speed (platform (process_key_presses k l)))
  = vy (speed (platform l)).
Proof.
  intros Ha Hd. unfold process_key_presses. rewrite Ha, Hd.
  set (l1 := if key_ctrl k then release_ball l else l).
  assert (H1 : platform l1 = platform l).
  { subst l1. unfold release_ball.
    destruct (key_ctrl k), (is_ball_released (state l)); reflexivity. }
  clearbody l1. rewrite <- H1. clear H1.
  rewrite !key_update_platform_eq.
  cbn [rect speed vx vy set_vx].
  rewrite Qabs_opp_eq, Qabs_Qabs_eq.
  split; [|split; reflexivity].
  destruct (rect (platform l1)) as [x y w h].
  unfold move_ip. cbn [rx ry rw rh].
  rewrite to_int_opp, to_int_zero. f_equal; lia.
Qed.

Lemma both_keys_cancel_witness :
  rect (platform (process_key_presses (mkKeys false true true)
                    level_right_wall))
  = rect (platform level_right_wall).
Proof.
  apply (both_keys_cancel (mkKeys false true true) level_right_wall);
    reflexivity.
Defined.

(** *** Lives, score and flags over ticks *)

Lemma update_lifes (k : Keys) (l : Level) :
  lifes (state l) - 1 <= lifes (state (update k l)) <= lifes (state l).
Proof.
  destruct (update_state_after_passes k l) as (-> & _).
  unfold after_passes.
  destruct (process_key_presses_frame k l) as (_ & _ & _ & Hl & _).
  revert Hl. generalize (process_key_presses k l) as l1. intros l1 Hl.
  destruct (x_pass_spec l1) as (_ & _ & _ & _ & Hs).
  revert Hs. generalize (x_pass l1) as l2. intros l2 Hs.
  destruct (y_pass_frame l2) as (_ & _ & _ & _ & ->).
  rewrite Hs, Hl. destruct (y_outcome l2); lia.
Qed.

(** Over any run of ticks lives never rise and fall by at most one per
    tick, the score never falls, and the block list never grows. *)
Theorem lives_score_blocks_monotone (ks : list Keys) (l : Level) :
  lifes (state l) - Z.of_nat (length ks) <= lifes (state (updates ks l))
    <= lifes (state l) /\
  score (state l) <= score (state (updates ks l)) /\
  (length (blocks (updates ks l)) <= length (blocks l))%nat.
Proof.
  split.
  - revert l. induction ks as [|k ks IH]; intros l.
    + change (updates [] l) with l. cbn [length]. lia.
    + rewrite updates_cons. specialize (IH (update k l)).
      pose proof (update_lifes k l) as H. revert IH H.
      generalize (updates ks (update k l)) as l2, (update k l) as l1.
      intros l2 l1 IH H. cbn [length]. lia.
  - destruct (updates_score ks l) as [Hlen Hsc]. revert Hlen Hsc.
    generalize (updates ks l) as l'. intros l' Hlen Hsc. split; lia.
Qed.

(** The termination flags after a tick: neither is ever cleared; the game
    is over exactly when it was or the tick ends with no life left; the
    player has won exactly when they had or the tick ends with a life left
    and no block in the list. *)
Theorem termination_flags (k : Keys) (l : Level) :
  is_game_over (state (update k l))
  = is_game_over (state l) || (lifes (state (update k l)) <? 1) /\
  is_player_won (state (update k l))
  = is_player_won (state l)
    || ((1 <=? lifes (state (update k l)))
        && (length (blocks (update k l)) =? 0)%nat).
Proof.
  rewrite update_unfold, before_cleanup_unfold. unfold after_passes.
  destruct (process_key_presses_frame k l) as (_ & _ & _ & _ & Hg & Hw & _).
  revert Hg Hw. generalize (process_key_presses k l) as l1. intros l1 Hg Hw.
  destruct (x_pass_spec l1) as (_ & _ & _ & _ & Hs).
  revert Hs. generalize (x_pass l1) as l2. intros l2 Hs.
  destruct (y_pass_flags l2) as (Hyg & Hyw & _).
  revert Hyg Hyw. generalize (y_pass l2) as m. intros m Hyg Hyw.
  destruct (anti_squeeze_frame m) as (_ & _ & _ & Has & _).
  revert Has. generalize (anti_squeeze m) as a. intros a Has.
  destruct (platform_clamp_frame a) as (_ & _ & _ & Hcs & _).
  revert Hcs. generalize (platform_clamp a) as c. intros c Hcs.
  destruct (cleanup_frame c) as (_ & _ & _ & _ & Hcg & _ & Hcw & _).
  destruct (check_termination_frame (cleanup c))
    as (-> & _ & _ & _ & _ & -> & _).
  destruct (check_termination_flags (cleanup c)) as (_ & -> & ->).
  rewrite Hcg, Hcw, Hcs, Has, Hyg, Hyw, Hs, Hg, Hw. split; reflexivity.
Qed.

(** *** The unreleased ball *)

Lemma Qabs_eq_zero (a b : Q) : Qabs a = Qabs b -> (b == 0)%Q -> (a == 0)%Q.
Proof.
  destruct a as [na da], b as [nb db]. unfold Qabs, Qeq. cbn [Qnum Qden].
  intros [= Hn _] Hb. lia.
Qed.

Lemma update_at_rest (k : Keys) (l : Level) :
  at_rest l -> at_rest (update k l).
Proof.
  unfold at_rest. intros Hrest Hrel.
  destruct (update_state_after_passes k l) as (_ & Hr & _ & _ & Hs).
  rewrite Hr in Hrel. clear Hr.
  assert (Hmid : (vx (speed (ball (after_passes k l))) == 0)%Q /\
                 (vy (speed (ball (after_passes k l))) == 0)%Q).
  { clear Hs. unfold after_passes in *.
    pose proof (process_key_presses_released k l) as Hkr.
    pose proof (process_key_presses_speed k l) as Hks.
    revert Hrel Hkr Hks.
    generalize (process_key_presses k l) as l1. intros l1.
    destruct (x_pass_spec l1) as (_ & Hxm & _ & _ & Hxs).
    revert Hxm Hxs. generalize (x_pass l1) as l2. intros l2 Hxm Hxs.
    destruct (y_outcome l2) eqn:Eo;
      try (destruct (y_pass_spec l2) as (_ & Hym & _ & _ & Hys);
           [congruence|];
           revert Hym Hys; generalize (y_pass l2) as m;
           intros m Hym Hys Hrel Hkr Hks;
           rewrite Hys, Hxs, Hkr in Hrel;
           apply orb_false_iff in Hrel; destruct Hrel as [Hc Hl];
           rewrite Hc in Hks; cbn in Hks;
           destruct (Hrest Hl) as [H0x H0y];
           destruct Hxm, Hym; split;
           [apply (Qabs_eq_zero _ (vx (speed (ball l)))); [congruence|exact H0x]
           |apply (Qabs_eq_zero _ (vy (speed (ball l)))); [congruence|exact H0y]]).
    rewrite (y_pass_bottom l2 Eo). intros _ _ _. cbn. split; reflexivity. }
  rewrite update_unfold.
  destruct (check_termination_frame (cleanup (before_cleanup k l)))
    as (_ & _ & -> & _).
  apply cleanup_rest; rewrite Hs; apply Hmid.
Qed.

Lemma Level_init_at_rest (lifes0 : Z) (bs : list Block)
    (p b : MovableEntity) (w h t : Z) :
  at_rest (Level_init lifes0 bs p b w h t).
Proof.
  unfold at_rest. intros _. cbn. split; reflexivity.
Qed.

(** While the ball is not released its velocity is zero: [Level.__init__]
    makes it so, and every tick keeps it so (the release sets the flag, the
    life loss clears flag and velocity together). *)
Theorem unreleased_ball_at_rest (ks : list Keys) (l : Level) :
  at_rest l -> at_rest (updates ks l).
Proof.
  revert l. induction ks as [|k ks IH]; intros l H.
  - exact H.
  - rewrite updates_cons. apply IH, update_at_rest, H.
Qed.

Lemma unreleased_ball_at_rest_witness :
  at_rest (updates [key_a_held; key_d_held]
             (Level_init 4 one_block (entity 350 375 65 20 5 0)
                (entity 0 0 15 15 2 (-2)) 700 500 45)).
Proof.
  apply unreleased_ball_at_rest, Level_init_at_rest.
Defined.

(** *** Cleanup when no two neighbours are hit *)

Lemma sweep_live_blocks (n : nat) :
  forall bs : list Block,
    (length bs <= n)%nat ->
    adjacent_destroyed bs = false -> sweep bs = live_blocks bs.
Proof.
  induction n as [|n IH]; intros bs Hlen Hadj.
  - destruct bs; [reflexivity|cbn in Hlen; lia].
  - destruct bs as [|a rest]; [reflexivity|].
    cbn [sweep live_blocks filter]. cbn in Hlen.
    destruct (is_destroyed a) eqn:Ea; cbn [negb].
    + destruct rest as [|c rest']; [reflexivity|].
      cbn [adjacent_destroyed] in Hadj. rewrite Ea in Hadj.
      apply orb_false_iff in Hadj. destruct Hadj as [Hc Hadj].
      cbn [andb] in Hc. cbn [filter]. rewrite Hc. cbn [negb].
      f_equal. apply IH; [cbn in Hlen; lia|].
      cbn [adjacent_destroyed] in Hadj. rewrite Hc in Hadj.
      destruct rest'; [reflexivity|exact Hadj].
    + f_equal. apply IH; [lia|].
      cbn [adjacent_destroyed] in Hadj. rewrite Ea in Hadj.
      destruct rest; [reflexivity|exact Hadj].
Qed.

(** When no two neighbours in the block list are flagged in the same
    tick, the tick's cleanup is a plain filter: every flagged block leaves
    the list, every other block stays in order, and no destroyed block is
    left behind. *)
Theorem cleanup_is_filter (k : Keys) (l : Level) :
  distinct l ->
  adjacent_destroyed (blocks (before_cleanup k l)) = false ->
  blocks (update k l) = live_blocks (blocks (before_cleanup k l)) /\
  forallb (fun b => negb (is_destroyed b)) (blocks (update k l)) = true.
Proof.
  intros Hd Hadj. rewrite (update_blocks k l Hd). revert Hadj.
  generalize (blocks (before_cleanup k l)) as bs. intros bs Hadj.
  rewrite (sweep_live_blocks _ _ (le_n _) Hadj).
  split; [reflexivity|].
  apply forallb_forall. intros b Hb.
  apply filter_In in Hb. apply Hb.
Qed.

Lemma cleanup_is_filter_witness :
  blocks (before_cleanup no_keys level_one_hit)
    = [set_is_destroyed (mkBlock 0 (mkRect 21 78 45 20) false)] /\
  blocks (update no_keys level_one_hit) = [].
Proof.
  split; [vm_compute; reflexivity|].
  destruct (cleanup_is_filter no_keys level_one_hit) as [H _].
  - unfold distinct. cbn. constructor; [intros []|constructor].
  - vm_compute. reflexivity.
  - rewrite H. vm_compute. reflexivity.
Defined.

(** *** The walls *)

Lemma y_blocks_miss (b : MovableEntity) (bs : list Block) :
  all_miss b bs -> y_blocks bs b = (bs, b).
Proof.
  induction 1 as [|p ps Hp _ IH]; cbn; [reflexivity|].
  rewrite Hp, IH. reflexivity.
Qed.

(** A ball no larger than the boundary that meets neither platform nor
    block is kept inside the boundary by the passes: the X pass leaves it
    between the side walls, and the Y pass, unless the ball is lost at the
    bottom, between top and bottom. *)
Theorem passes_keep_ball_inside (l : Level) :
  (rw (rect (ball l)) <= rw (edges l) ->
   x_outcome l <> XPlatform ->
   all_miss (advance_x (ball l)) (blocks l) ->
   inside_walls (rect (ball (x_pass l))) (edges l)) /\
  (rh (rect (ball l)) <= rh (edges l) ->
   y_outcome l <> YPlatform -> y_outcome l <> YBottomEdge ->
   all_miss (advance_y (ball l)) (blocks l) ->
   inside_floor_and_ceiling (rect (ball (y_pass l))) (edges l)).
Proof.
  split.
  - unfold x_outcome, x_pass, inside_walls. intros Hw Ho Hmiss.
    destruct (is_collided_with _ _); [congruence|].
    destruct (right (rect (advance_x (ball l))) >? right (edges l)) eqn:Er.
    { unfold left, right in *. cbn in *. lia. }
    destruct (left (rect (advance_x (ball l))) <? left (edges l)) eqn:El.
    { unfold left, right in *. cbn in *. lia. }
    rewrite (x_blocks_miss _ _ Hmiss). cbn [ball with_ball]. lia.
  - unfold y_outcome, y_pass, inside_floor_and_ceiling. intros Hh Ho Hb Hmiss.
    destruct (is_collided_with _ _); [congruence|].
    destruct (bottom (rect (advance_y (ball l))) >? bottom (edges l)) eqn:Eb;
      [congruence|].
    destruct (top (rect (advance_y (ball l))) <? top (edges l)) eqn:Et.
    { unfold top, bottom in *. cbn in *. lia. }
    rewrite (y_blocks_miss _ _ Hmiss). cbn [ball with_ball]. lia.
Qed.

Lemma passes_keep_ball_inside_witness :
  inside_walls (rect (ball (x_pass level_free_flight)))
    (edges level_free_flight).
Proof.
  destruct (passes_keep_ball_inside level_free_flight) as [H _].
  apply H.
  - vm_compute. discriminate.
  - vm_compute. discriminate.
  - repeat constructor.
Defined.

(* ------------------------------------------------------------------ *)
(** ** Further properties of the frame loop *)

(** Once [running] is false no event sets it again, and a quit event
    clears it. *)
Lemma handle_events_running (fuel : nat) (lm : LevelMaker) (es : list Event) :
  forall s s' : Loop,
    handle_events fuel lm es s = Some s' ->
    (running s = false -> running s' = false) /\
    (quits es -> running s' = false).
Proof.
  unfold quits.
  induction es as [|e es IH]; intros s s'; cbn [handle_events].
  - intros [= <-]. split; [auto|]. intros [[]|[]].
  - destruct (handle_event fuel lm e s) as [s1|] eqn:E; [|discriminate].
    intros H. destruct (IH s1 s' H) as [Hkeep Hquit].
    assert (H1 : running s = false -> running s1 = false).
    { destruct e as [|[]|]; cbn in E;
        try (injection E as <-; cbn; auto).
      destruct (get_level fuel lm); [|discriminate].
      injection E as <-. cbn. auto. }
    split; [auto|].
    intros [[->|Hin]|[->|Hin]].
    + apply Hkeep. cbn in E. injection E as <-. reflexivity.
    + apply Hquit. left. exact Hin.
    + apply Hkeep. cbn in E. injection E as <-. reflexivity.
    + apply Hquit. right. exact Hin.
Qed.

(** A frame that brings a quit event (the window's close or the key q) is
    the last one: it is still carried out in full, and whatever inputs
    follow are never looked at. *)
Theorem quit_stops_loop (fuel : nat) (lm : LevelMaker) (es : list Event)
    (k : Keys) (rest : list (list Event * Keys)) (s : Loop) :
  running s = true -> quits es ->
  run_frames fuel lm ((es, k) :: rest) s = frame fuel lm es k s /\
  (forall s', frame fuel lm es k s = Some s' -> running s' = false).
Proof.
  intros Hrun Hq.
  assert (Hstop : forall s', frame fuel lm es k s = Some s' ->
                             running s' = false).
  { unfold frame. intros s'.
    destruct (handle_events fuel lm es s) as [s1|] eqn:E; [|discriminate].
    intros [= <-].
    destruct (handle_events_running fuel lm es s s1 E) as [_ H].
    specialize (H Hq). unfold simulate.
    destruct (is_game_over _); [exact H|].
    destruct (is_player_won _); [exact H|].
    destruct (negb _); [exact H|exact H]. }
  split; [|exact Hstop].
  cbn [run_frames]. rewrite Hrun.
  destruct (frame fuel lm es k s) as [s'|]; [|reflexivity].
  specialize (Hstop s' eq_refl).
  destruct rest as [|[es' k'] rest]; cbn [run_frames]; [reflexivity|].
  rewrite Hstop. reflexivity.
Qed.

Lemma quit_stops_loop_witness :
  run_frames 0 level_maker_A
    [([KEYDOWN K_q], no_keys); ([KEYDOWN K_SPACE], key_a_held)] loop_game_over
  = frame 0 level_maker_A [KEYDOWN K_q] no_keys loop_game_over.
Proof.
  apply quit_stops_loop.
  - reflexivity.
  - right. left. reflexivity.
Defined.

Lemma simulate_frozen (k : Keys) (s : Loop) :
  is_game_over (state (level s)) = true \/
  is_player_won (state (level s)) = true \/
  is_paused s = true ->
  simulate k s = s.
Proof.
  unfold simulate. intros [H|[H|H]]; rewrite H.
  - reflexivity.
  - destruct (is_game_over _); reflexivity.
  - destruct (is_game_over _); [reflexivity|].
    destruct (is_player_won _); reflexivity.
Qed.

(** A won level is as frozen as a lost one: the simulation step is left
    out while the game is won, lost or paused, and once [is_player_won] is
    true the level stays as it is over any frames that bring no reset. *)
Theorem won_level_freezes (fuel : nat) (lm : LevelMaker)
    (inputs : list (list Event * Keys)) (s : Loop) :
  is_player_won (state (level s)) = true ->
  Forall (fun i => no_reset (fst i)) inputs ->
  (forall k s0, is_paused s0 = true -> level (simulate k s0) = level s0) /\
  exists s', run_frames fuel lm inputs s = Some s' /\ level s' = level s.
Proof.
  intros Hwon Hin. split.
  { intros k s0 Hp. rewrite simulate_frozen; auto. }
  revert s Hwon.
  induction Hin as [|[es k] rest Hes _ IH]; intros s Hwon; cbn [run_frames].
  - exists s. split; reflexivity.
  - destruct (running s); [|exists s; split; reflexivity].
    unfold frame.
    destruct (handle_events_no_reset fuel lm es s Hes) as (s1 & -> & H1).
    assert (Hwon1 : is_player_won (state (level s1)) = true)
      by (rewrite H1; exact Hwon).
    rewrite (simulate_frozen k s1) by auto.
    destruct (IH s1 Hwon1) as (s' & Hrun & H').
    exists s'. split; [exact Hrun|]. rewrite H', H1. reflexivity.
Qed.

Lemma won_level_freezes_witness :
  exists s',
    run_frames 0 level_maker_A
      [([KEYDOWN K_SPACE], key_a_held); ([OtherEvent], key_d_held)]
      loop_won = Some s' /\
    level s' = level loop_won.
Proof.
  destruct (won_level_freezes 0 level_maker_A
              [([KEYDOWN K_SPACE], key_a_held); ([OtherEvent], key_d_held)]
              loop_won) as (_ & s' & Hrun & Hlevel).
  - vm_compute. reflexivity.
  - repeat constructor; unfold no_reset; cbn; intuition discriminate.
  - exists s'. split; assumption.
Defined.

(** The level after the events of a frame is the old one or a fresh one,
    and a fresh one as soon as a reset is among them. *)
Lemma handle_events_level (fuel : nat) (lm : LevelMaker) (es : list Event) :
  forall s s' : Loop,
    handle_events fuel lm es s = Some s' ->
    (get_level fuel lm = Some (level s') \/ level s' = level s) /\
    (In (KEYDOWN K_DELETE) es -> get_level fuel lm = Some (level s')).
Proof.
  induction es as [|e es IH]; intros s s'; cbn [handle_events].
  - intros [= <-]. split; [auto|intros []].
  - destruct (handle_event fuel lm e s) as [s1|] eqn:E; [|discriminate].
    intros H. destruct (IH s1 s' H) as [Hor Hreset].
    assert (H1 : (e = KEYDOWN K_DELETE /\
                  get_level fuel lm = Some (level s1)) \/
                 (e <> KEYDOWN K_DELETE /\ level s1 = level s)).
    { destruct e as [|[]|]; cbn in E;
        try (injection E as <-; right; split; [discriminate|reflexivity]).
      destruct (get_level fuel lm) as [fresh|]; [|discriminate].
      injection E as <-. left. split; reflexivity. }
    split.
    + destruct Hor as [Hf|Hs]; [auto|].
      destruct H1 as [[_ H1]|[_ H1]]; [left|right]; congruence.
    + intros [->|Hin]; [|auto].
      destruct Hor as [Hf|Hs]; [exact Hf|].
      destruct H1 as [[_ H1]|[Hne _]]; [congruence|congruence].
Qed.

(** A reset discards the level in full: after a frame that brings the
    reset key the level is the one the level maker makes, or that level
    after its first tick; nothing of the old level is left. *)
Theorem reset_replaces_level (fuel : nat) (lm : LevelMaker)
    (es : list Event) (k : Keys) (s s' : Loop) :
  In (KEYDOWN K_DELETE) es ->
  frame fuel lm es k s = Some s' ->
  exists fresh,
    get_level fuel lm = Some fresh /\
    (level s' = fresh \/ level s' = update k fresh).
Proof.
  unfold frame. intros Hin.
  destruct (handle_events fuel lm es s) as [s1|] eqn:E; [|discriminate].
  intros [= <-].
  destruct (handle_events_level fuel lm es s s1 E) as [_ H].
  specialize (H Hin). exists (level s1). split; [exact H|].
  unfold simulate.
  destruct (is_game_over _); [left; reflexivity|].
  destruct (is_player_won _); [left; reflexivity|].
  destruct (negb _); [right; reflexivity|left; reflexivity].
Qed.

Lemma reset_replaces_level_witness :
  exists s' fresh,
    frame 11 level_maker_A [KEYDOWN K_DELETE] no_keys loop_game_over
      = Some s' /\
    get_level 11 level_maker_A = Some fresh /\
    (level s' = fresh \/ level s' = update no_keys fresh).
Proof.
  assert (H : exists s', frame 11 level_maker_A [KEYDOWN K_DELETE] no_keys
                           loop_game_over = Some s').
  { eexists. vm_compute. reflexivity. }
  destruct H as (s' & Hs').
  destruct (reset_replaces_level 11 level_maker_A [KEYDOWN K_DELETE] no_keys
              loop_game_over s') as (fresh & Hf & Hl).
  - left. reflexivity.
  - exact Hs'.
  - exists s', fresh. auto.
Defined.

(* ------------------------------------------------------------------ *)
(** ** Further properties of the level maker *)

Lemma get_level_block_count_witness :
  exists l,
    get_level 11 level_maker_A = Some l /\
    Z.of_nat (length (blocks l))
    = columns_per_row level_maker_A * Z.max 0 (num_of_rows level_maker_A).
Proof.
  destruct (get_level_block_count level_maker_A) with (fuel := 11%nat)
    as (l & Hl & Hn & _).
  - vm_compute. reflexivity.
  - vm_compute. reflexivity.
  - exists l. split; assumption.
Defined.

Lemma place_row_well_placed (lm : LevelMaker) (fuel : nat) :
  0 <= fst (block_size (images lm)) + horizontal_margin lm ->
  forall (x y : Z) (n : nat) (bs : list Block) (n' : nat),
    place_row fuel lm x y n = Some (bs, n') ->
    Forall (fun b => x <= left (block_rect b) /\
                     right (block_rect b) < width (lm_edges lm) /\
                     rw (block_rect b) = fst (block_size (images lm)) /\
                     rh (block_rect b) = snd (block_size (images lm)) /\
                     top (block_rect b) = y /\
                     is_destroyed b = false) bs.
Proof.
  intros Hstep.
  induction fuel as [|fuel IH]; intros x y n bs n'; cbn [place_row];
    [discriminate|].
  destruct (x + fst (block_size (images lm)) <? width (lm_edges lm)) eqn:E.
  - destruct (place_row fuel lm _ y (S n)) as [[bs1 n1]|] eqn:E1;
      [|discriminate].
    intros [= <- <-]. constructor.
    + unfold left, right, top. cbn. repeat split; lia.
    + eapply Forall_impl; [|apply (IH _ _ _ _ _ E1)].
      cbn beta. intros b (H1 & H2). split; [lia|exact H2].
  - intros [= <- <-]. constructor.
Qed.

Lemma place_rows_well_placed (lm : LevelMaker) (fuel : nat) :
  0 <= fst (block_size (images lm)) + horizontal_margin lm ->
  forall (rows : nat) (y : Z) (n : nat) (bs : list Block),
    place_rows fuel lm rows y n = Some bs ->
    Forall (fun b => horizontal_margin lm <= left (block_rect b) /\
                     right (block_rect b) < width (lm_edges lm) /\
                     rw (block_rect b) = fst (block_size (images lm)) /\
                     rh (block_rect b) = snd (block_size (images lm)) /\
                     (exists i, (i < rows)%nat /\
                                top (block_rect b)
                                = y + Z.of_nat i * vertical_margin lm) /\
                     is_destroyed b = false) bs.
Proof.
  intros Hstep.
  induction rows as [|rows IH]; intros y n bs; cbn [place_rows].
  - intros [= <-]. constructor.
  - destruct (place_row fuel lm _ y n) as [[row n1]|] eqn:E; [|discriminate].
    destruct (place_rows fuel lm rows _ n1) as [more|] eqn:E'; [|discriminate].
    intros [= <-]. apply Forall_app. split.
    + eapply Forall_impl;
        [|apply (place_row_well_placed lm fuel Hstep _ _ _ _ _ E)].
      cbn beta. intros b (H1 & H2 & H3 & H4 & H5 & H6).
      repeat split; try assumption.
      exists 0%nat. split; [lia|]. rewrite H5. cbn. lia.
    + eapply Forall_impl; [|apply (IH _ _ _ E')].
      cbn beta. intros b (H1 & H2 & H3 & H4 & (i & Hi & H5) & H6).
      repeat split; try assumption.
      exists (S i). split; [lia|]. rewrite H5. lia.
Qed.

(** Every block of a made level lies between the horizontal margin and
    the boundary's width (its right edge strictly left of it), on one of
    the row lines, has the size of the block image and is not destroyed. *)
Theorem get_level_layout (fuel : nat) (lm : LevelMaker) (l : Level) :
  0 <= fst (block_size (images lm)) + horizontal_margin lm ->
  get_level fuel lm = Some l ->
  Forall (well_placed lm) (blocks l).
Proof.
  intros Hstep. unfold get_level. cbv zeta.
  destruct (place_rows fuel lm _ _ 0%nat) as [bs|] eqn:E; [|discriminate].
  intros [= <-].
  cbn [Level_init reset_ball with_state with_ball blocks].
  apply (place_rows_well_placed lm fuel Hstep _ _ _ _ E).
Qed.

Lemma get_level_layout_witness :
  exists l, get_level 11 level_maker_A = Some l /\
            Forall (well_placed level_maker_A) (blocks l).
Proof.
  assert (H : exists l, get_level 11 level_maker_A = Some l).
  { eexists. vm_compute. reflexivity. }
  destruct H as (l & Hl). exists l. split; [exact Hl|].
  apply (get_level_layout 11 level_maker_A l); [|exact Hl].
  vm_compute. discriminate.
Defined.

Lemma place_row_never_ends (lm : LevelMaker) (fuel : nat) :
  fst (block_size (images lm)) + horizontal_margin lm <= 0 ->
  forall (x y : Z) (n : nat),
    x + fst (block_size (images lm)) < width (lm_edges lm) ->
    place_row fuel lm x y n = None.
Proof.
  intros Hstep.
  induction fuel as [|fuel IH]; intros x y n Hx; cbn [place_row];
    [reflexivity|].
  replace (_ <? _) with true by (symmetry; lia).
  rewrite IH by lia. reflexivity.
Qed.

(** When block width plus margin is not positive and there is room for a
    first block, the loop that fills a row never ends: [get_level] comes
    back for no amount of fuel. *)
Theorem get_level_never_returns (lm : LevelMaker) (fuel : nat) :
  fst (block_size (images lm)) + horizontal_margin lm <= 0 ->
  horizontal_margin lm + fst (block_size (images lm)) < width (lm_edges lm) ->
  0 < num_of_rows lm ->
  get_level fuel lm = None.
Proof.
  intros Hstep Hroom Hrows. unfold get_level. cbv zeta.
  destruct (Z.to_nat (num_of_rows lm)) as [|rows] eqn:E; [lia|].
  cbn [place_rows]. rewrite place_row_never_ends by assumption.
  reflexivity.
Qed.

Lemma get_level_never_returns_witness :
  Game_init (mkEdges 4 500) 10 1 = Ok level_maker_narrow /\
  get_level 1000 level_maker_narrow = None.
Proof.
  split; [vm_compute; reflexivity|].
  apply get_level_never_returns; vm_compute;
    first [reflexivity|discriminate].
Defined.

(** *** Platform.move against MovableEntity.move *)

Lemma platform_move_ignores_vertical_speed (p : MovableEntity) :
  rx (rect (platform_move p)) = rx (rect (movable_move p)) /\
  ry (rect (platform_move p)) = ry (rect p).
Proof.
  unfold platform_move, movable_move, move_ip. cbn.
  rewrite to_int_zero. split; lia.
Qed.

(* ------------------------------------------------------------------ *)
(** ** Errors of construction *)



(* ------------------------------------------------------------------ *)
(** ** The life-loss event, a concrete tick *)

Lemma life_loss_tick_witness :
  ball_lost no_keys level_last_life /\
  lifes (state (update no_keys level_last_life)) = 0 /\
  is_game_over (state (update no_keys level_last_life)) = true /\
  is_ball_released (state (update no_keys level_last_life)) = false /\
  bottom (rect (ball (update no_keys level_last_life))) =
    top (rect (platform (update no_keys level_last_life))) /\
  centerx (rect (ball (update no_keys level_last_life))) =
    centerx (rect (platform (update no_keys level_last_life))).
Proof.
  assert (Hlost : ball_lost no_keys level_last_life)
    by (unfold ball_lost; vm_compute; split; reflexivity).
  split; [exact Hlost|].
  destruct (life_loss_tick no_keys level_last_life Hlost)
    as (_ & _ & Hrel & _ & _ & Hover & Hend).
  destruct Hover as [H0 Hgo]; [vm_compute; reflexivity|].
  split; [exact H0|]. split; [exact Hgo|]. split; [exact Hrel|].
  apply Hend.
  - unfold outside_boundary. vm_compute. intros [H|H]; discriminate H.
  - vm_compute. intros H; discriminate H.
  - vm_compute. intros H; discriminate H.
Defined.

(* ------------------------------------------------------------------ *)
(** ** The ball before launch *)

Lemma key_update_ties (l : Level) :
  is_ball_released (state l) = false ->
  bottom (rect (ball (key_update l))) = top (rect (platform (key_update l))) /\
  centerx (rect (ball (key_update l)))
  = centerx (rect (platform (key_update l))).
Proof.
  intros H. unfold key_update.
  cbn [state with_platform]. rewrite H.
  cbn [ball platform with_ball with_platform].
  apply tie_to_platform_spec.
Qed.

(** Before launch the ball follows the platform: after the keys of a tick
    have been processed with [a] or [d] held (and no release), the ball
    stands on the platform's top edge, horizontally centred on it. *)
Theorem ball_follows_platform (k : Keys) (l : Level) :
  is_ball_released (state l) = false ->
  key_ctrl k = false ->
  key_a k = true \/ key_d k = true ->
  bottom (rect (ball (process_key_presses k l)))
  = top (rect (platform (process_key_presses k l))) /\
  centerx (rect (ball (process_key_presses k l)))
  = centerx (rect (platform (process_key_presses k l))).
Proof.
  intros Hrel Hc Hkeys. unfold process_key_presses. rewrite Hc.
  destruct (key_d k) eqn:Ed.
  - apply key_update_ties. cbn.
    destruct (key_a k); [|exact Hrel].
    destruct (key_update_frame l (- Qabs (vx (speed (platform l)))))
      as (_ & _ & ->).
    exact Hrel.
  - destruct Hkeys as [Ha|Hd]; [|discriminate]. rewrite Ha.
    apply key_update_ties. exact Hrel.
Qed.

Lemma ball_follows_platform_witness :
  centerx (rect (ball (process_key_presses key_a_held
                         (update no_keys level_last_life))))
  = centerx (rect (platform (process_key_presses key_a_held
                               (update no_keys level_last_life)))).
Proof.
  apply (ball_follows_platform key_a_held (update no_keys level_last_life));
    [vm_compute; reflexivity|reflexivity|left; reflexivity].
Defined.
